(** * IPMI Prometheus exporter: sensor-report parsing and metric updates

    A shallow embedding of [main.go].  Go strings are byte sequences and are
    modelled as [list ascii]; [float64] is the binary64 instance of the
    standard library's [spec_float]; the five [GaugeVec] collections are
    finite maps from label triples to values.  The Go library functions the
    program calls ([strings], [unicode/utf8], [regexp], [strconv]) are
    modelled in modules of their own, following their documented behaviour. *)

From Stdlib Require Import ZArith List Ascii String Bool Lia.
From Corelib Require Import SpecFloat.
From stdpp Require Import base option list gmap.

Import ListNotations.
Local Open Scope Z_scope.
Local Open Scope list_scope.

(** ** Bytes and Go strings *)

Abbreviation bytes := (list ascii).

(** String literals of the source, as byte sequences. *)
Definition str (s : string) : bytes := list_ascii_of_string s.

Definition byteZ (c : ascii) : Z := Z.of_N (N_of_ascii c).

Definition byteIn (lo hi : Z) (c : ascii) : bool :=
  (lo <=? byteZ c) && (byteZ c <=? hi).

Definition bytes_eqb (a b : bytes) : bool := bool_decide (a = b).

Definition isEmpty (s : bytes) : bool :=
  match s with [] => true | _ :: _ => false end.

(** ** Package [unicode/utf8] and [unicode.IsSpace] *)

Module Utf8.

Definition RuneError : Z := 65533.
Definition RuneSelf : Z := 128.
Definition UTFMax : nat := 4.

Definition cont (c : ascii) : bool := byteIn 128 191 c.

Definition low6 (c : ascii) : Z := Z.land (byteZ c) 63.

(** [utf8.DecodeRuneInString]: the first rune of [s] and its width in
    bytes; [(RuneError, 0)] on the empty string and [(RuneError, 1)] on an
    encoding that is invalid, overlong, a surrogate or out of range. *)
Definition DecodeRune (s : bytes) : Z * nat :=
  match s with
  | [] => (RuneError, 0%nat)
  | b0 :: t =>
    let x := byteZ b0 in
    if x <? RuneSelf then (x, 1%nat)
    else if byteIn 194 223 b0 then
      match t with
      | b1 :: _ =>
        if cont b1 then (Z.lor (Z.shiftl (Z.land x 31) 6) (low6 b1), 2%nat)
        else (RuneError, 1%nat)
      | _ => (RuneError, 1%nat)
      end
    else if byteIn 224 239 b0 then
      match t with
      | b1 :: b2 :: _ =>
        let lo := if x =? 224 then 160 else 128 in
        let hi := if x =? 237 then 159 else 191 in
        if byteIn lo hi b1 && cont b2 then
          (Z.lor (Z.shiftl (Z.land x 15) 12)
             (Z.lor (Z.shiftl (low6 b1) 6) (low6 b2)), 3%nat)
        else (RuneError, 1%nat)
      | _ => (RuneError, 1%nat)
      end
    else if byteIn 240 244 b0 then
      match t with
      | b1 :: b2 :: b3 :: _ =>
        let lo := if x =? 240 then 144 else 128 in
        let hi := if x =? 244 then 143 else 191 in
        if byteIn lo hi b1 && cont b2 && cont b3 then
          (Z.lor (Z.shiftl (Z.land x 7) 18)
             (Z.lor (Z.shiftl (low6 b1) 12)
                (Z.lor (Z.shiftl (low6 b2) 6) (low6 b3))), 4%nat)
        else (RuneError, 1%nat)
      | _ => (RuneError, 1%nat)
      end
    else (RuneError, 1%nat)
  end.

(** [utf8.RuneStart]: the byte is not a continuation byte. *)
Definition RuneStart (c : ascii) : bool :=
  negb (Z.land (byteZ c) 192 =? 128).

(** The backwards scan of [DecodeLastRuneInString]: from index [start],
    at most [n] steps down while the byte is not a rune start. *)
Fixpoint scanBack (s : bytes) (start : nat) (n : nat) {struct n} : nat :=
  match n with
  | O => start
  | S n' =>
    match s !! start with
    | Some c =>
      if RuneStart c then start
      else match start with
           | O => O
           | S p => scanBack s p n'
           end
    | None => start
    end
  end.

(** [utf8.DecodeLastRuneInString]. *)
Definition DecodeLastRune (s : bytes) : Z * nat :=
  let end_ := length s in
  match end_ with
  | O => (RuneError, 0%nat)
  | S last =>
    match s !! last with
    | None => (RuneError, 0%nat)
    | Some c =>
      if byteZ c <? RuneSelf then (byteZ c, 1%nat)
      else
        let lim := (end_ - UTFMax)%nat in
        let start :=
          match last with
          | O => O
          | S p => scanBack s p (S (p - lim))
          end in
        let '(r, size) := DecodeRune (drop start s) in
        if (start + size =? end_)%nat then (r, size) else (RuneError, 1%nat)
    end
  end.

(** [unicode.IsSpace]: the Unicode White_Space property. *)
Definition IsSpace (r : Z) : bool :=
  ((9 <=? r) && (r <=? 13)) || (r =? 32) || (r =? 133) || (r =? 160)
  || (r =? 5760) || ((8192 <=? r) && (r <=? 8202))
  || (r =? 8232) || (r =? 8233) || (r =? 8239) || (r =? 8287)
  || (r =? 12288).

End Utf8.

(** ** Package [strings] *)

Module Strings.

(** [strings.HasPrefix]. *)
Fixpoint HasPrefix (s prefix : bytes) : bool :=
  match prefix, s with
  | [], _ => true
  | p :: prefix', c :: s' => Ascii.eqb c p && HasPrefix s' prefix'
  | _ :: _, [] => false
  end.

(** [strings.Contains]: [substr] occurs somewhere within [s]. *)
Fixpoint Contains (s substr : bytes) : bool :=
  HasPrefix s substr ||
  match s with
  | [] => false
  | _ :: s' => Contains s' substr
  end.

(** [strings.Split] for a one-byte separator: the pieces between the
    separators; the result is never empty. *)
Fixpoint Split (s : bytes) (sep : ascii) : list bytes :=
  match s with
  | [] => [[]]
  | c :: s' =>
    if Ascii.eqb c sep then [] :: Split s' sep
    else match Split s' sep with
         | piece :: rest => (c :: piece) :: rest
         | [] => [[c]]
         end
  end.

(** [strings.TrimLeftFunc s unicode.IsSpace]: runes are decoded from the
    front and dropped while they are white space. *)
Fixpoint trimLeft (fuel : nat) (s : bytes) : bytes :=
  match fuel with
  | O => s
  | S fuel' =>
    let '(r, size) := Utf8.DecodeRune s in
    match size with
    | O => s
    | _ => if Utf8.IsSpace r then trimLeft fuel' (drop size s) else s
    end
  end.

(** [strings.TrimRightFunc s unicode.IsSpace]: the same from the back,
    with [DecodeLastRuneInString]. *)
Fixpoint trimRight (fuel : nat) (s : bytes) : bytes :=
  match fuel with
  | O => s
  | S fuel' =>
    let '(r, size) := Utf8.DecodeLastRune s in
    match size with
    | O => s
    | _ =>
      if Utf8.IsSpace r then trimRight fuel' (take (length s - size) s)
      else s
    end
  end.

(** [strings.TrimSpace]: leading white space is removed, then trailing
    white space of what remains.  Every step removes at least one byte,
    so the length of the string is enough fuel. *)
Definition TrimSpace (s : bytes) : bytes :=
  let l := trimLeft (length s) s in
  trimRight (length l) l.

(** The loop of [strings.FieldsFunc s unicode.IsSpace]: [cur] is the
    field being read, if any ([start >= 0] in the source). *)
Fixpoint fieldsLoop (fuel : nat) (s : bytes) (cur : option bytes)
    : list bytes :=
  match fuel with
  | O => match cur with Some f => [f] | None => [] end
  | S fuel' =>
    let '(r, size) := Utf8.DecodeRune s in
    match size with
    | O => match cur with Some f => [f] | None => [] end
    | _ =>
      if Utf8.IsSpace r then
        match cur with
        | Some f => f :: fieldsLoop fuel' (drop size s) None
        | None => fieldsLoop fuel' (drop size s) None
        end
      else
        fieldsLoop fuel' (drop size s)
          (Some (default [] cur ++ take size s))
    end
  end.

(** [strings.Fields]: the maximal runs of non-space runes. *)
Definition Fields (s : bytes) : list bytes :=
  fieldsLoop (S (length s)) s None.

End Strings.

(** ** Package [regexp]

    The fragment of the RE2 syntax that the program's pattern uses: text
    anchors, one-character classes, greedy repetition of a class, capture
    groups and concatenation.  Matching is leftmost-first (the match a
    backtracking search finds first), which [run] realises as the list of
    all matches at a position in backtracking order.  The classes of the
    pattern are decided by single bytes ([|], ASCII space and word
    characters, newline), so matching bytes agrees with matching runes. *)

Module Regexp.

Inductive class :=
| Lit (c : ascii)        (* a literal character, here [\|] *)
| NotLit (c : ascii)     (* [[^c]] *)
| PerlSpace              (* [\s] = [[\t\n\f\r ]] *)
| PerlWord               (* [\w] = [[0-9A-Za-z_]] *)
| AnyCharNotNL.          (* [.] without the [s] flag *)

Definition member (cl : class) (c : ascii) : bool :=
  match cl with
  | Lit x => Ascii.eqb c x
  | NotLit x => negb (Ascii.eqb c x)
  | PerlSpace =>
    (byteZ c =? 9) || (byteZ c =? 10) || (byteZ c =? 12)
    || (byteZ c =? 13) || (byteZ c =? 32)
  | PerlWord =>
    byteIn 48 57 c || byteIn 65 90 c || byteIn 97 122 c || (byteZ c =? 95)
  | AnyCharNotNL => negb (byteZ c =? 10)
  end.

Inductive regexp :=
| EmptyMatch
| BeginText                              (* [^] *)
| EndText                                (* [$] *)
| One (cl : class)
| Star (cl : class)                      (* greedy [cl*] *)
| Plus (cl : class)                      (* greedy [cl+] *)
| Capture (index : nat) (r : regexp)
| Concat (r1 r2 : regexp).

Fixpoint NumSubexp (r : regexp) : nat :=
  match r with
  | Capture _ r' => S (NumSubexp r')
  | Concat r1 r2 => (NumSubexp r1 + NumSubexp r2)%nat
  | _ => O
  end.

(** One match: the text consumed, the groups captured, the text left. *)
Definition thread : Type := bytes * list (nat * bytes) * bytes.

(** Every way to consume a run of class members from the front of [s],
    the longest first. *)
Fixpoint starSplits (p : ascii -> bool) (s : bytes) : list (bytes * bytes) :=
  match s with
  | c :: s' =>
    if p c then
      ((fun ws => (c :: ws.1, ws.2)) <$> starSplits p s') ++ [([], s)]
    else [([], s)]
  | [] => [([], [])]
  end.

Definition plusSplits (p : ascii -> bool) (s : bytes) : list (bytes * bytes) :=
  match s with
  | c :: s' =>
    if p c then (fun ws => (c :: ws.1, ws.2)) <$> starSplits p s' else []
  | [] => []
  end.

(** All matches of [r] at the front of [s], a suffix of [text], in the
    order a backtracking matcher tries them. *)
Fixpoint run (text : bytes) (r : regexp) (s : bytes) : list thread :=
  match r with
  | EmptyMatch => [([], [], s)]
  | BeginText => if (length s =? length text)%nat then [([], [], s)] else []
  | EndText => if isEmpty s then [([], [], s)] else []
  | One cl =>
    match s with
    | c :: s' => if member cl c then [([c], [], s')] else []
    | [] => []
    end
  | Star cl => (fun ws => (ws.1, [], ws.2)) <$> starSplits (member cl) s
  | Plus cl => (fun ws => (ws.1, [], ws.2)) <$> plusSplits (member cl) s
  | Capture i r' =>
    (fun t : thread => (t.1.1, (i, t.1.1) :: t.1.2, t.2)) <$> run text r' s
  | Concat r1 r2 =>
    t1 ← run text r1 s;
    (fun t2 : thread => (t1.1.1 ++ t2.1.1, t1.1.2 ++ t2.1.2, t2.2))
      <$> run text r2 t1.2
  end.

(** The leftmost position of [text] at which [re] matches, with the
    first match there. *)
Fixpoint search (text : bytes) (re : regexp) (s : bytes) : option thread :=
  match run text re s with
  | t :: _ => Some t
  | [] =>
    match s with
    | [] => None
    | _ :: s' => search text re s'
    end
  end.

Definition groupText (g : list (nat * bytes)) (i : nat) : bytes :=
  match find (fun ib : nat * bytes => (ib.1 =? i)%nat) g with
  | Some ib => ib.2
  | None => []
  end.

(** [FindStringSubmatch] of a compiled pattern: the matched text followed by the text
    of each capture group, or [nil] when there is no match. *)
Definition FindStringSubmatch (re : regexp) (s : bytes) : list bytes :=
  match search s re s with
  | Some t => t.1.1 :: map (groupText t.1.2) (seq 1 (NumSubexp re))
  | None => []
  end.

End Regexp.

(** ** [float64] *)

Definition prec : Z := 53.
Definition emax : Z := 1024.

Abbreviation float64 := spec_float.

Definition float64_zero : float64 := S754_zero false.

(** The Go conversion [float64(z)] of an integer constant. *)
Definition float64_of_Z (z : Z) : float64 := binary_normalize prec emax z 0 false.

(** The binary64 value nearest to [n/d], ties to even, for [0 <= n] and
    [0 < d]: the quotient step of IEEE division on integers. *)
Definition float64_of_ratio (neg : bool) (n d : Z) : float64 :=
  if n =? 0 then S754_zero neg
  else
    let '(mz, ez, lz) := SFdiv_core_binary prec emax n 0 d 0 in
    binary_round_aux prec emax neg mz ez lz.

(** Go's [==] on [float64]. *)
Definition float64_eqb (x y : float64) : bool := SFeqb x y.

(** ** Package [strconv]: [ParseFloat(s, 64)]

    The syntax follows [readFloat], [special] and [underscoreOK] of the Go
    library.  The library documents the result as the nearest binary64
    number under IEEE 754 round-to-nearest-even, and an out-of-range value
    as an error; the model computes that value from the exact digits. *)

Module Strconv.

(** [lower(c)] is [c | ('x' - 'X')]. *)
Definition lower (c : ascii) : ascii := ascii_of_N (N.lor (N_of_ascii c) 32).

Definition isDigit (c : ascii) : bool := byteIn 48 57 c.
Definition isHexLetter (c : ascii) : bool := byteIn 97 102 (lower c).
Definition digitVal (c : ascii) : Z := byteZ c - 48.
Definition hexLetterVal (c : ascii) : Z := byteZ (lower c) - 97 + 10.

Fixpoint commonPrefixLenIgnoreCase (s prefix : bytes) : nat :=
  match s, prefix with
  | c :: s', p :: prefix' =>
    let c' := if byteIn 65 90 c then ascii_of_N (N_of_ascii c + 32) else c in
    if Ascii.eqb c' p then S (commonPrefixLenIgnoreCase s' prefix') else O
  | _, _ => O
  end.

Definition infinityPrefix (neg : bool) (nsign : nat) (s : bytes)
    : option (float64 * nat) :=
  let n := commonPrefixLenIgnoreCase s (str "infinity") in
  let n := if (3 <? n)%nat && (n <? 8)%nat then 3%nat else n in
  if (n =? 3)%nat || (n =? 8)%nat
  then Some (S754_infinity neg, (nsign + n)%nat)
  else None.

(** [special]: the spellings of infinity and NaN, with the number of
    bytes they take. *)
Definition special (s : bytes) : option (float64 * nat) :=
  match s with
  | [] => None
  | c :: t =>
    if Ascii.eqb c "+" then infinityPrefix false 1 t
    else if Ascii.eqb c "-" then infinityPrefix true 1 t
    else if Ascii.eqb c "i" || Ascii.eqb c "I" then infinityPrefix false 0 s
    else if Ascii.eqb c "n" || Ascii.eqb c "N" then
      if (commonPrefixLenIgnoreCase s (str "nan") =? 3)%nat
      then Some (S754_nan, 3%nat) else None
    else None
  end.

Record scan := {
  mantissa : Z;          (* all digits read, leading zeros apart *)
  nd : Z;                (* how many of them *)
  dp : Z;                (* position of the decimal point *)
  sawdot : bool;
  sawdigits : bool;
  underscores : bool
}.

Definition scan0 : scan :=
  {| mantissa := 0; nd := 0; dp := 0; sawdot := false; sawdigits := false;
     underscores := false |}.

Definition pushDigit (base v : Z) (a : scan) : scan :=
  {| mantissa := mantissa a * base + v; nd := nd a + 1; dp := dp a;
     sawdot := sawdot a; sawdigits := true; underscores := underscores a |}.

(** The digit loop of [readFloat]. *)
Fixpoint digitsLoop (base : Z) (s : bytes) (a : scan) : scan * bytes :=
  match s with
  | [] => (a, [])
  | c :: s' =>
    if Ascii.eqb c "_" then
      digitsLoop base s'
        {| mantissa := mantissa a; nd := nd a; dp := dp a;
           sawdot := sawdot a; sawdigits := sawdigits a;
           underscores := true |}
    else if Ascii.eqb c "." then
      if sawdot a then (a, s)
      else
        digitsLoop base s'
          {| mantissa := mantissa a; nd := nd a; dp := nd a;
             sawdot := true; sawdigits := sawdigits a;
             underscores := underscores a |}
    else if isDigit c then
      if Ascii.eqb c "0" && (nd a =? 0) then
        digitsLoop base s'
          {| mantissa := mantissa a; nd := nd a; dp := dp a - 1;
             sawdot := sawdot a; sawdigits := true;
             underscores := underscores a |}
      else digitsLoop base s' (pushDigit base (digitVal c) a)
    else if (base =? 16) && isHexLetter c then
      digitsLoop base s' (pushDigit 16 (hexLetterVal c) a)
    else (a, s)
  end.

(** The exponent digits; the accumulator stops growing at 10000. *)
Fixpoint expLoop (s : bytes) (e : Z) (us : bool) : Z * bool * bytes :=
  match s with
  | [] => (e, us, [])
  | c :: s' =>
    if Ascii.eqb c "_" then expLoop s' e true
    else if isDigit c then
      expLoop s' (if e <? 10000 then e * 10 + digitVal c else e) us
    else (e, us, s)
  end.

Inductive saw := SawStart | SawDigit | SawUnderscore | SawOther.

Fixpoint underscoreLoop (hex : bool) (s : bytes) (sw : saw) : bool :=
  match s with
  | [] => match sw with SawUnderscore => false | _ => true end
  | c :: s' =>
    if isDigit c || (hex && isHexLetter c) then underscoreLoop hex s' SawDigit
    else if Ascii.eqb c "_" then
      match sw with
      | SawDigit => underscoreLoop hex s' SawUnderscore
      | _ => false
      end
    else
      match sw with
      | SawUnderscore => false
      | _ => underscoreLoop hex s' SawOther
      end
  end.

(** [underscoreOK]: underscores only between digits, or between a base
    prefix and a digit. *)
Definition underscoreOK (s : bytes) : bool :=
  let s :=
    match s with
    | c :: t => if Ascii.eqb c "-" || Ascii.eqb c "+" then t else s
    | [] => s
    end in
  match s with
  | c0 :: c1 :: t =>
    if Ascii.eqb c0 "0"
       && (Ascii.eqb (lower c1) "b" || Ascii.eqb (lower c1) "o"
           || Ascii.eqb (lower c1) "x")
    then underscoreLoop (Ascii.eqb (lower c1) "x") t SawDigit
    else underscoreLoop false s SawStart
  | _ => underscoreLoop false s SawStart
  end.

Record number := {
  num_mantissa : Z;
  num_exp : Z;           (* power of ten, or of two for a hex number *)
  num_neg : bool;
  num_hex : bool;
  num_rest : bytes       (* the text after the number *)
}.

(** [readFloat]: sign, digits with an optional point, optional exponent.
    [None] is the source's [ok = false]. *)
Definition readFloat (s : bytes) : option number :=
  match s with
  | [] => None
  | c :: t =>
    let '(neg, s1) :=
      if Ascii.eqb c "+" then (false, t)
      else if Ascii.eqb c "-" then (true, t)
      else (false, s) in
    let '(hex, s2) :=
      match s1 with
      | c0 :: c1 :: c2 :: t2 =>
        if Ascii.eqb c0 "0" && Ascii.eqb (lower c1) "x"
        then (true, c2 :: t2) else (false, s1)
      | _ => (false, s1)
      end in
    let '(a, s3) := digitsLoop (if hex then 16 else 10) s2 scan0 in
    if negb (sawdigits a) then None
    else
      let dp1 := if sawdot a then dp a else nd a in
      let dp2 := if hex then dp1 * 4 else dp1 in
      let ndMant := if hex then nd a * 4 else nd a in
      let expChar := if hex then "p"%char else "e"%char in
      let finish (dp3 : Z) (us : bool) (rest : bytes) :=
        let consumed := take (length s - length rest) s in
        if us && negb (underscoreOK consumed) then None
        else
          Some {| num_mantissa := mantissa a;
                  num_exp := if mantissa a =? 0 then 0 else dp3 - ndMant;
                  num_neg := neg; num_hex := hex; num_rest := rest |} in
      match s3 with
      | c3 :: s4 =>
        if Ascii.eqb (lower c3) expChar then
          match s4 with
          | [] => None
          | c4 :: t4 =>
            let '(esign, s5) :=
              if Ascii.eqb c4 "+" then (1, t4)
              else if Ascii.eqb c4 "-" then (-1, t4)
              else (1, s4) in
            match s5 with
            | c5 :: _ =>
              if isDigit c5 then
                let '(e, us, rest) := expLoop s5 0 (underscores a) in
                finish (dp2 + e * esign) us rest
              else None
            | [] => None
            end
          end
        else if hex then None
        else finish dp2 (underscores a) s3
      | [] => if hex then None else finish dp2 (underscores a) s3
      end
  end.

(** The nearest binary64 value of [m * base^e]; [None] when it is out of
    range (the library returns an infinity together with [ErrRange]). *)
Definition floatBits (neg : bool) (base m e : Z) : option float64 :=
  let f :=
    if 0 <=? e then float64_of_ratio neg (m * base ^ e) 1
    else float64_of_ratio neg m (base ^ (- e)) in
  match f with
  | S754_infinity _ => None
  | _ => Some f
  end.

(** [strconv.ParseFloat(s, 64)]; [None] stands for [err != nil]. *)
Definition ParseFloat (s : bytes) : option float64 :=
  match special s with
  | Some (f, n) => if (n =? length s)%nat then Some f else None
  | None =>
    match readFloat s with
    | None => None
    | Some x =>
      if negb (isEmpty (num_rest x)) then None
      else floatBits (num_neg x) (if num_hex x then 2 else 10)
             (num_mantissa x) (num_exp x)
    end
  end.

End Strconv.

(** ** The program: [main.go] *)

Record IPMIConfig := {
  Host : bytes;
  Username : bytes;
  Password : bytes;
  Port : Z
}.

(** The field [Type] of the source is [Type_] here. *)
Record SensorData := {
  Name : bytes;
  ID : bytes;
  Status : bytes;
  Entity : bytes;
  Value : float64;
  Unit : bytes;
  Type_ : bytes
}.

Definition newline : ascii := "010"%char.
Definition bar : ascii := "|"%char.

(** The pattern
    [^([^|]+)\s*\|\s*([^|]+)\s*\|\s*(\w+)\s*\|\s*([^|]+)\s*\|\s*(.+)$]. *)
Definition sensorRegex : Regexp.regexp :=
  let sep :=
    [Regexp.Star Regexp.PerlSpace; Regexp.One (Regexp.Lit bar);
     Regexp.Star Regexp.PerlSpace] in
  foldr Regexp.Concat Regexp.EmptyMatch
    ([Regexp.BeginText; Regexp.Capture 1 (Regexp.Plus (Regexp.NotLit bar))]
     ++ sep ++ [Regexp.Capture 2 (Regexp.Plus (Regexp.NotLit bar))]
     ++ sep ++ [Regexp.Capture 3 (Regexp.Plus Regexp.PerlWord)]
     ++ sep ++ [Regexp.Capture 4 (Regexp.Plus (Regexp.NotLit bar))]
     ++ sep ++ [Regexp.Capture 5 (Regexp.Plus Regexp.AnyCharNotNL);
                Regexp.EndText]).

(** [parts := strings.Fields(valueStr)] followed by
    [strconv.ParseFloat(parts[0], 64)] when [len(parts) >= 1]. *)
Definition leadingFloat (valueStr : bytes) : option float64 :=
  match Strings.Fields valueStr with
  | part0 :: _ => Strconv.ParseFloat part0
  | [] => None
  end.

Definition parseValue (valueStr : bytes) : float64 * bytes * bytes :=
  let valueStr := Strings.TrimSpace valueStr in
  match (if Strings.Contains valueStr (str "Volts")
         then leadingFloat valueStr else None) with
  | Some val => (val, str "volts", str "voltage")
  | None =>
  match (if Strings.Contains valueStr (str "degrees C")
         then leadingFloat valueStr else None) with
  | Some val => (val, str "celsius", str "temperature")
  | None =>
  match (if Strings.Contains valueStr (str "RPM")
         then leadingFloat valueStr else None) with
  | Some val => (val, str "rpm", str "fan")
  | None =>
  match (if Strings.Contains valueStr (str "Watts")
         then leadingFloat valueStr else None) with
  | Some val => (val, str "watts", str "power")
  | None =>
  match (if Strings.Contains valueStr (str "Amps")
         then leadingFloat valueStr else None) with
  | Some val => (val, str "amperes", str "current")
  | None => (float64_zero, [], [])
  end end end end end.

(** The body of the [for _, line := range lines] loop of
    [parseSensorData]: [sensors] after the iteration on [line]. *)
Definition loopBody (sensors : list SensorData) (line : bytes)
    : list SensorData :=
  let line := Strings.TrimSpace line in
  if isEmpty line then sensors
  else
    let matches := Regexp.FindStringSubmatch sensorRegex line in
    if negb (length matches =? 6)%nat then sensors
    else
      let name := Strings.TrimSpace (nth 1 matches []) in
      let id := Strings.TrimSpace (nth 2 matches []) in
      let status := Strings.TrimSpace (nth 3 matches []) in
      let entity := Strings.TrimSpace (nth 4 matches []) in
      let valueStr := Strings.TrimSpace (nth 5 matches []) in
      if negb (bytes_eqb status (str "ok")) then sensors
      else if Strings.Contains valueStr (str "No Reading") then sensors
      else
        let '(value, unit, sensorType) := parseValue valueStr in
        if float64_eqb value float64_zero && bytes_eqb unit [] then sensors
        else
          sensors ++
            [{| Name := name; ID := id; Status := status; Entity := entity;
                Value := value; Unit := unit; Type_ := sensorType |}].

Definition parseSensorData (sdrData : bytes) : list SensorData :=
  let lines := Strings.Split sdrData newline in
  fold_left loopBody lines [].

(** *** The metric registry *)

(** Modelled from the spec: the metric collections of the Prometheus client
    library ([prometheus.GaugeVec] and its [WithLabelValues] and [Set]),
    which the program imports.  Each of the five collections, with labels
    [sensor_name], [sensor_id], [host], holds the single most recent value
    for each label combination; its set operation takes the three label
    values and a value, and unconditionally overwrites the value stored
    under that combination.  No operation removes a key. *)

Abbreviation labels := (bytes * bytes * bytes)%type.
Abbreviation GaugeVec := (gmap labels float64).

Record registry := {
  voltageGauge : GaugeVec;
  temperatureGauge : GaugeVec;
  fanGauge : GaugeVec;
  powerGauge : GaugeVec;
  currentGauge : GaugeVec
}.

Definition setGauge (g : GaugeVec) (name id host : bytes) (v : float64)
    : GaugeVec :=
  <[(name, id, host) := v]> g.

(** One iteration of the loop of [updateMetrics]: the [switch] on
    [sensor.Type]. *)
Definition updateMetric (host : bytes) (reg : registry) (sensor : SensorData)
    : registry :=
  let set g := setGauge g (Name sensor) (ID sensor) host (Value sensor) in
  if bytes_eqb (Type_ sensor) (str "voltage") then
    {| voltageGauge := set (voltageGauge reg);
       temperatureGauge := temperatureGauge reg; fanGauge := fanGauge reg;
       powerGauge := powerGauge reg; currentGauge := currentGauge reg |}
  else if bytes_eqb (Type_ sensor) (str "temperature") then
    {| voltageGauge := voltageGauge reg;
       temperatureGauge := set (temperatureGauge reg);
       fanGauge := fanGauge reg;
       powerGauge := powerGauge reg; currentGauge := currentGauge reg |}
  else if bytes_eqb (Type_ sensor) (str "fan") then
    {| voltageGauge := voltageGauge reg;
       temperatureGauge := temperatureGauge reg;
       fanGauge := set (fanGauge reg);
       powerGauge := powerGauge reg; currentGauge := currentGauge reg |}
  else if bytes_eqb (Type_ sensor) (str "power") then
    {| voltageGauge := voltageGauge reg;
       temperatureGauge := temperatureGauge reg; fanGauge := fanGauge reg;
       powerGauge := set (powerGauge reg); currentGauge := currentGauge reg |}
  else if bytes_eqb (Type_ sensor) (str "current") then
    {| voltageGauge := voltageGauge reg;
       temperatureGauge := temperatureGauge reg; fanGauge := fanGauge reg;
       powerGauge := powerGauge reg; currentGauge := set (currentGauge reg) |}
  else reg.

Definition updateMetrics (sensors : list SensorData) (host : bytes)
    (reg : registry) : registry :=
  fold_left (updateMetric host) sensors reg.

(** What [executeIPMICommand] returns: the output of [ipmitool], or an
    error.  The command itself is outside the program. *)
Inductive commandResult :=
| Output (output : bytes)
| Failed (err : bytes).

(** [collectMetrics], given the result of the command it runs.  The log
    lines it prints are not part of the model. *)
Definition collectMetrics (config : IPMIConfig) (res : commandResult)
    (reg : registry) : registry :=
  match res with
  | Failed _ => reg
  | Output output =>
    let sensors := parseSensorData output in
    updateMetrics sensors (Host config) reg
  end.

(** *** [startMetricsCollection]

    Two flows of control run after [startMetricsCollection] is called: the
    caller, which creates the ticker, starts the goroutine, calls
    [collectMetrics] and returns; and the goroutine, which loops over
    [collectMetrics(config); <-ticker.C].  The runtime interleaves them and
    the timer fires on its own, so a run is a list of [action]s.  The
    channel [ticker.C] has capacity one: a tick that finds it full is
    dropped. *)

Inductive flow := Caller | Goroutine.

Inductive callerPC := AtNewTicker | AtGo | AtCollect | Returned.

Inductive goroutinePC := NotStarted | LoopCollect | LoopWait.

Inductive event :=
| Collected (f : flow)     (* a call of [collectMetrics] *)
| TimerFired               (* the ticker sends on [ticker.C] *)
| TickReceived.            (* [<-ticker.C] returns *)

Record sched := {
  callerAt : callerPC;
  goroutineAt : goroutinePC;
  tickerOn : bool;
  tickPending : bool;
  metrics : registry;
  trace : list event       (* oldest first *)
}.

Inductive action :=
| StepCaller (res : commandResult)
| StepGoroutine (res : commandResult)
| TimerFires.

Definition initial (reg : registry) : sched :=
  {| callerAt := AtNewTicker; goroutineAt := NotStarted; tickerOn := false;
     tickPending := false; metrics := reg; trace := [] |}.

(** One step of the flow that the action names; [None] when that flow
    cannot move (it has returned, has not started, or waits on an empty
    channel).  [res] is what [executeIPMICommand] returns if the step is a
    call of [collectMetrics]. *)
Definition step (config : IPMIConfig) (a : action) (st : sched)
    : option sched :=
  match a with
  | StepCaller res =>
    match callerAt st with
    | AtNewTicker =>
      Some {| callerAt := AtGo; goroutineAt := goroutineAt st;
              tickerOn := true; tickPending := tickPending st;
              metrics := metrics st; trace := trace st |}
    | AtGo =>
      Some {| callerAt := AtCollect; goroutineAt := LoopCollect;
              tickerOn := tickerOn st; tickPending := tickPending st;
              metrics := metrics st; trace := trace st |}
    | AtCollect =>
      Some {| callerAt := Returned; goroutineAt := goroutineAt st;
              tickerOn := tickerOn st; tickPending := tickPending st;
              metrics := collectMetrics config res (metrics st);
              trace := trace st ++ [Collected Caller] |}
    | Returned => None
    end
  | StepGoroutine res =>
    match goroutineAt st with
    | NotStarted => None
    | LoopCollect =>
      Some {| callerAt := callerAt st; goroutineAt := LoopWait;
              tickerOn := tickerOn st; tickPending := tickPending st;
              metrics := collectMetrics config res (metrics st);
              trace := trace st ++ [Collected Goroutine] |}
    | LoopWait =>
      if tickPending st then
        Some {| callerAt := callerAt st; goroutineAt := LoopCollect;
                tickerOn := tickerOn st; tickPending := false;
                metrics := metrics st;
                trace := trace st ++ [TickReceived] |}
      else None
    end
  | TimerFires =>
    if tickerOn st then
      Some {| callerAt := callerAt st; goroutineAt := goroutineAt st;
              tickerOn := true; tickPending := true;
              metrics := metrics st; trace := trace st ++ [TimerFired] |}
    else None
  end.

Fixpoint runActions (config : IPMIConfig) (acts : list action) (st : sched)
    : option sched :=
  match acts with
  | [] => Some st
  | a :: acts' =>
    match step config a st with
    | Some st' => runActions config acts' st'
    | None => None
    end
  end.

Definition isCollected (f : flow) (e : event) : bool :=
  match e, f with
  | Collected Caller, Caller => true
  | Collected Goroutine, Goroutine => true
  | _, _ => false
  end.

Definition isTimerFired (e : event) : bool :=
  match e with TimerFired => true | _ => false end.

Definition isTickReceived (e : event) : bool :=
  match e with TickReceived => true | _ => false end.

Definition count (p : event -> bool) (tr : list event) : nat :=
  length (List.filter p tr).

(** Calls of [collectMetrics], by either flow. *)
Definition collections (tr : list event) : nat :=
  (count (isCollected Caller) tr + count (isCollected Goroutine) tr)%nat.

(** The events before the timer fires for the first time. *)
Fixpoint beforeFirstTick (tr : list event) : list event :=
  match tr with
  | [] => []
  | e :: tr' => if isTimerFired e then [] else e :: beforeFirstTick tr'
  end.

(** Startup is over: the caller has returned and the goroutine waits for
    a tick. *)
Definition startupDone (st : sched) : bool :=
  match callerAt st, goroutineAt st with
  | Returned, LoopWait => true
  | _, _ => false
  end.

(** ** Definitions used to state the properties *)

(** The Record Parser: the match against [sensorRegex] and the five
    trimmed fields, as the loop body computes them from a trimmed line;
    [None] when the loop body skips the line for its shape. *)
Definition recordParser (line : bytes)
    : option (bytes * bytes * bytes * bytes * bytes) :=
  let matches := Regexp.FindStringSubmatch sensorRegex line in
  if negb (length matches =? 6)%nat then None
  else
    Some (Strings.TrimSpace (nth 1 matches []),
          Strings.TrimSpace (nth 2 matches []),
          Strings.TrimSpace (nth 3 matches []),
          Strings.TrimSpace (nth 4 matches []),
          Strings.TrimSpace (nth 5 matches [])).

(** A piece of text without a line break. *)
Definition oneLine (s : bytes) : bool :=
  forallb (fun c => negb (Ascii.eqb c newline)) s.

(** [strings.Cut] for a one-byte separator: the text before and after the
    first separator. *)
Fixpoint Cut (s : bytes) (sep : ascii) : option (bytes * bytes) :=
  match s with
  | [] => None
  | c :: s' =>
    if Ascii.eqb c sep then Some ([], s')
    else match Cut s' sep with
         | Some (before, after) => Some (c :: before, after)
         | None => None
         end
  end.

Fixpoint skipWhile (p : ascii -> bool) (s : bytes) : bytes :=
  match s with
  | c :: s' => if p c then skipWhile p s' else s
  | [] => []
  end.

Fixpoint takeWhile (p : ascii -> bool) (s : bytes) : bytes :=
  match s with
  | c :: s' => if p c then c :: takeWhile p s' else []
  | [] => []
  end.

(** The five columns of a line: columns one to four end at the first four
    bars, column five is the remainder of the line. *)
Definition columns (line : bytes)
    : option (bytes * bytes * bytes * bytes * bytes) :=
  match Cut line bar with
  | None => None
  | Some (c1, r1) =>
    match Cut r1 bar with
    | None => None
    | Some (c2, r2) =>
      match Cut r2 bar with
      | None => None
      | Some (c3, r3) =>
        match Cut r3 bar with
        | None => None
        | Some (c4, c5) => Some (c1, c2, c3, c4, c5)
        end
      end
    end
  end.

(** A status column: one word of letters, digits and underscores, with
    optional blanks around it. *)
Definition wordColumn (c : bytes) : bool :=
  let body := skipWhile (Regexp.member Regexp.PerlSpace) c in
  let word := takeWhile (Regexp.member Regexp.PerlWord) body in
  let rest := skipWhile (Regexp.member Regexp.PerlWord) body in
  negb (isEmpty word) && forallb (Regexp.member Regexp.PerlSpace) rest.

(** The five-field pipe-delimited shape of a line, stated on the text and
    not on the pattern: five columns, none empty, the third a status
    word. *)
Definition fiveFieldShape (line : bytes) : bool :=
  match columns line with
  | None => false
  | Some (c1, c2, c3, c4, c5) =>
    negb (isEmpty c1) && negb (isEmpty c2) && wordColumn c3
    && negb (isEmpty c4) && negb (isEmpty c5)
  end.

(** The unit keywords of the Value Classifier in their priority order,
    each with its unit and quantity. *)
Definition unitKeywords : list (bytes * bytes * bytes) :=
  [(str "Volts", str "volts", str "voltage");
   (str "degrees C", str "celsius", str "temperature");
   (str "RPM", str "rpm", str "fan");
   (str "Watts", str "watts", str "power");
   (str "Amps", str "amperes", str "current")].

(** The first keyword, in priority order, that the text contains. *)
Definition recognizedUnit (valueStr : bytes) : option (bytes * bytes * bytes) :=
  find (fun k : bytes * bytes * bytes => Strings.Contains valueStr k.1.1)
       unitKeywords.

(** The unit and quantity pairs a reading can carry. *)
Definition knownUnits : list (bytes * bytes) :=
  map (fun k : bytes * bytes * bytes => (k.1.2, k.2)) unitKeywords.

(** The declarative reading of a pattern: [matchesP text r s w g rest]
    says that [r] matches the prefix [w] of [s], leaving [rest] and
    capturing [g]. *)
Fixpoint matchesP (text : bytes) (r : Regexp.regexp) (s w : bytes)
    (g : list (nat * bytes)) (rest : bytes) : Prop :=
  match r with
  | Regexp.EmptyMatch => w = [] /\ g = [] /\ rest = s
  | Regexp.BeginText => length s = length text /\ w = [] /\ g = [] /\ rest = s
  | Regexp.EndText => s = [] /\ w = [] /\ g = [] /\ rest = []
  | Regexp.One cl =>
    exists c, s = c :: rest /\ Regexp.member cl c = true /\ w = [c] /\ g = []
  | Regexp.Star cl =>
    s = w ++ rest /\ forallb (Regexp.member cl) w = true /\ g = []
  | Regexp.Plus cl =>
    s = w ++ rest /\ forallb (Regexp.member cl) w = true /\ w <> [] /\ g = []
  | Regexp.Capture i r' =>
    exists g', matchesP text r' s w g' rest /\ g = (i, w) :: g'
  | Regexp.Concat r1 r2 =>
    exists w1 g1 s1 w2 g2,
      matchesP text r1 s w1 g1 s1 /\ matchesP text r2 s1 w2 g2 rest /\
      w = w1 ++ w2 /\ g = g1 ++ g2
  end.

(** The gauge collections by physical quantity. *)
Inductive quantity := Voltage | Temperature | Fan | Power | Current.

Definition gauge (q : quantity) (reg : registry) : GaugeVec :=
  match q with
  | Voltage => voltageGauge reg
  | Temperature => temperatureGauge reg
  | Fan => fanGauge reg
  | Power => powerGauge reg
  | Current => currentGauge reg
  end.

(** The case of the [switch] in [updateMetrics] that a reading takes. *)
Definition sensorQuantity (sensor : SensorData) : option quantity :=
  if bytes_eqb (Type_ sensor) (str "voltage") then Some Voltage
  else if bytes_eqb (Type_ sensor) (str "temperature") then Some Temperature
  else if bytes_eqb (Type_ sensor) (str "fan") then Some Fan
  else if bytes_eqb (Type_ sensor) (str "power") then Some Power
  else if bytes_eqb (Type_ sensor) (str "current") then Some Current
  else None.

Definition emptyRegistry : registry :=
  {| voltageGauge := ∅; temperatureGauge := ∅; fanGauge := ∅;
     powerGauge := ∅; currentGauge := ∅ |}.

(** [accepts text r s rest]: [r] matches some prefix of [s] and leaves
    [rest], whatever it captures. *)
Definition accepts (text : bytes) (r : Regexp.regexp) (s rest : bytes) : Prop :=
  exists w g, matchesP text r s w g rest.

Ltac by_bytes c :=
  destruct c as [[] [] [] [] [] [] [] []]; vm_compute; congruence.

(** What every reading of the output satisfies. *)
Definition wellClassified (x : SensorData) : Prop :=
  (Unit x, Type_ x)
    ∈ [(str "volts", str "voltage"); (str "celsius", str "temperature");
       (str "rpm", str "fan"); (str "watts", str "power");
       (str "amperes", str "current")]
  /\ Unit x <> [] /\ Type_ x <> []
  /\ ~ (float64_eqb (Value x) float64_zero = true /\ Unit x = []).

Global Instance quantity_eq_dec : EqDecision quantity.
Proof. solve_decision. Defined.

(** What one iteration of [updateMetrics] does to the collection of one
    quantity, and to one point of it. *)
Definition writes (q : quantity) (host : bytes) (g : GaugeVec)
    (sensor : SensorData) : GaugeVec :=
  if decide (sensorQuantity sensor = Some q)
  then setGauge g (Name sensor) (ID sensor) host (Value sensor)
  else g.

Definition written (q : quantity) (host : bytes) (k : labels)
    (old : option float64) (sensor : SensorData) : option float64 :=
  if decide (sensorQuantity sensor = Some q
             /\ (Name sensor, ID sensor, host) = k)
  then Some (Value sensor)
  else old.

(** What holds in every state that a run reaches: the caller has
    collected once it has returned; the goroutine has collected once for
    its first iteration and once for each tick it received; every tick
    received or pending was fired; and the goroutine does not run before
    the [go] statement. *)
Definition schedInv (st : sched) : Prop :=
  count (isCollected Caller) (trace st)
  = (match callerAt st with Returned => 1 | _ => 0 end)%nat
  /\ count (isCollected Goroutine) (trace st)
     = (count isTickReceived (trace st)
        + match goroutineAt st with LoopWait => 1 | _ => 0 end)%nat
  /\ (count isTickReceived (trace st) + (if tickPending st then 1 else 0)
      <= count isTimerFired (trace st))%nat
  /\ match callerAt st with
     | AtNewTicker | AtGo => goroutineAt st = NotStarted
     | _ => True
     end.

Ltac sched_step snoc :=
  cbn [trace callerAt goroutineAt tickPending]; rewrite ?snoc;
  cbn [isCollected isTickReceived isTimerFired].

(** A byte below [utf8.RuneSelf]: a rune of its own. *)
Definition isASCII (c : ascii) : bool := byteZ c <? Utf8.RuneSelf.

(** The two halves of [strings.TrimSpace]. *)
Definition ltrim (s : bytes) : bytes := Strings.trimLeft (length s) s.
Definition rtrim (s : bytes) : bytes := Strings.trimRight (length s) s.

(** ** Configuration and the command, and definitions for further
    properties *)

(** The process environment; [os.Getenv] gives the empty string for a
    variable that is not set. *)
Definition Getenv (env : gmap bytes bytes) (key : bytes) : bytes :=
  default [] (env !! key).

(** [getIPMIConfig]; [None] stands for the call of [log.Fatal], which ends
    the process. *)
Definition getIPMIConfig (env : gmap bytes bytes) : option IPMIConfig :=
  let host := Getenv env (str "IPMI_HOST") in
  let username := Getenv env (str "IPMI_USERNAME") in
  let password := Getenv env (str "IPMI_PASSWORD") in
  if isEmpty host || isEmpty username || isEmpty password then None
  else Some {| Host := host; Username := username; Password := password;
               Port := 623 |}.

(** The program and arguments that [executeIPMICommand] gives to
    [exec.Command]. *)
Definition ipmitoolCommand (config : IPMIConfig) : list bytes :=
  [str "ipmitool"; str "-I"; str "lanplus"; str "-H"; Host config;
   str "-U"; Username config; str "-P"; Password config;
   str "sdr"; str "elist"; str "full"].

(** [executeIPMICommand], given the operating system as a function from a
    command line to what [cmd.Output()] returns: the bytes the command
    wrote, and an error if it could not run or did not exit cleanly. *)
Definition executeIPMICommand (config : IPMIConfig)
    (os : list bytes -> bytes * option bytes) : commandResult :=
  match os (ipmitoolCommand config) with
  | (_, Some err) =>
    Failed (str "failed to execute ipmitool command: " ++ err)
  | (output, None) => Output output
  end.

(** One collection cycle: [collectMetrics] with the call of
    [executeIPMICommand] it starts with. *)
Definition collectCycle (config : IPMIConfig)
    (os : list bytes -> bytes * option bytes) (reg : registry) : registry :=
  collectMetrics config (executeIPMICommand config os) reg.

(** The reading of a line, read off the text of the line: the columns
    between the bars, the status test, the marker test and the unit
    keyword. *)
Definition lineReading (line : bytes) : option SensorData :=
  let line := Strings.TrimSpace line in
  match columns line with
  | Some (c1, c2, c3, c4, c5) =>
    if fiveFieldShape line
       && bytes_eqb (Strings.TrimSpace c3) (str "ok")
       && negb (Strings.Contains (Strings.TrimSpace c5) (str "No Reading"))
    then
      match leadingFloat (Strings.TrimSpace c5),
            recognizedUnit (Strings.TrimSpace c5) with
      | Some v, Some (_, unit, quantity) =>
        Some {| Name := Strings.TrimSpace c1; ID := Strings.TrimSpace c2;
                Status := str "ok"; Entity := Strings.TrimSpace c4;
                Value := v; Unit := unit; Type_ := quantity |}
      | _, _ => None
      end
    else None
  | None => None
  end.

(** The label values of the point that a reading sets. *)
Definition labelsOf (host : bytes) (sensor : SensorData) : labels :=
  (Name sensor, ID sensor, host).

(** The values that a list of readings holds for one point of one
    collection, in order. *)
Definition valuesAt (q : quantity) (host : bytes) (k : labels)
    (sensors : list SensorData) : list float64 :=
  Value <$>
    filter (fun s => sensorQuantity s = Some q /\ labelsOf host s = k) sensors.

(** The (collection, label values) pair of a reading, if its type names a
    collection. *)
Definition pointOf (host : bytes) (sensor : SensorData)
    : option (quantity * labels) :=
  match sensorQuantity sensor with
  | Some q => Some (q, labelsOf host sensor)
  | None => None
  end.

Definition carriageReturn : ascii := "013"%char.

(** What the parser guarantees of the text fields of a reading, which
    become label values: the status is "ok", the name is not empty, and
    name, id and entity are trimmed and hold neither a bar nor a line
    break. *)
Definition cleanField (f : bytes) : Prop :=
  Strings.TrimSpace f = f /\
  forallb (Regexp.member (Regexp.NotLit bar)) f = true /\
  oneLine f = true.

Definition cleanReading (x : SensorData) : Prop :=
  Status x = str "ok" /\ Name x <> [] /\
  cleanField (Name x) /\ cleanField (ID x) /\ cleanField (Entity x).

(** Text made of ASCII blanks and line breaks only. *)
Definition blank (s : bytes) : bool :=
  forallb (Regexp.member Regexp.PerlSpace) s.

(** The action is a step whose command, if it runs one, fails. *)
Definition commandFails (a : action) : bool :=
  match a with
  | StepCaller (Failed _) | StepGoroutine (Failed _) | TimerFires => true
  | _ => false
  end.

(** ** Checks of the library models on small inputs *)

Example TrimSpace_ascii :
  Strings.TrimSpace (str "  CPU1 Temp   ") = str "CPU1 Temp".
Proof. reflexivity. Qed.

Example Fields_ascii :
  Strings.Fields (str " 45  degrees C ") = [str "45"; str "degrees"; str "C"].
Proof. reflexivity. Qed.


Example ParseFloat_decimal :
  Strconv.ParseFloat (str "45") = Some (float64_of_Z 45)
  /\ Strconv.ParseFloat (str "-0") = Some (S754_zero true)
  /\ Strconv.ParseFloat (str "0.1")
     = Some (SFdiv prec emax (float64_of_Z 1) (float64_of_Z 10))
  /\ Strconv.ParseFloat (str "1_23.50_0e+1_2")
     = Some (float64_of_Z 123500000000000).
Proof. vm_compute. auto. Qed.

Example ParseFloat_other_forms :
  Strconv.ParseFloat (str "0x1p-2")
  = Some (SFdiv prec emax (float64_of_Z 1) (float64_of_Z 4))
  /\ Strconv.ParseFloat (str "NaN") = Some S754_nan
  /\ Strconv.ParseFloat (str "-Infinity") = Some (S754_infinity true).
Proof. vm_compute. auto. Qed.

Example ParseFloat_errors :
  Strconv.ParseFloat (str "") = None
  /\ Strconv.ParseFloat (str "N/A") = None
  /\ Strconv.ParseFloat (str "1.5x") = None
  /\ Strconv.ParseFloat (str "123._5e+12") = None
  /\ Strconv.ParseFloat (str "1e400") = None.
Proof. vm_compute. auto. Qed.

Example FindStringSubmatch_line :
  Regexp.FindStringSubmatch sensorRegex (str "Fan1 | 04h | ok  | 7.1 | 850 RPM")
  = [str "Fan1 | 04h | ok  | 7.1 | 850 RPM";
     str "Fan1 "; str "04h "; str "ok"; str "7.1 "; str "850 RPM"].
Proof. vm_compute. reflexivity. Qed.

Example FindStringSubmatch_no_match :
  Regexp.FindStringSubmatch sensorRegex (str "Sensor report, 12 entries") = [].
Proof. vm_compute. reflexivity. Qed.

(** ** Lines of a report *)

Lemma Split_not_nil (s : bytes) (sep : ascii) : Strings.Split s sep <> [].
Proof.
  destruct s as [|c s]; simpl; [discriminate|].
  destruct (Ascii.eqb c sep); [discriminate|].
  destruct (Strings.Split s sep); discriminate.
Qed.

Lemma Split_app (a b : bytes) (sep : ascii) :
  Strings.Split (a ++ sep :: b) sep = Strings.Split a sep ++ Strings.Split b sep.
Proof.
  induction a as [|c a IH]; simpl.
  - by rewrite Ascii.eqb_refl.
  - destruct (Ascii.eqb c sep); [by rewrite IH|].
    rewrite IH. pose proof (Split_not_nil a sep).
    by destruct (Strings.Split a sep).
Qed.

Lemma Split_oneLine (line : bytes) :
  oneLine line = true -> Strings.Split line newline = [line].
Proof.
  unfold oneLine. induction line as [|c line IH]; simpl; [done|].
  intros [Hc Hl]%andb_prop. apply negb_true_iff in Hc. rewrite Hc.
  by rewrite (IH Hl).
Qed.

(** The pieces of a report are lines. *)
Lemma Split_lines (sdrData : bytes) :
  Forall (fun l => oneLine l = true) (Strings.Split sdrData newline).
Proof.
  induction sdrData as [|c s IH]; simpl; [by repeat constructor|].
  destruct (Ascii.eqb c newline) eqn:Hc; [by constructor|].
  destruct (Strings.Split s newline) as [|piece rest].
  - constructor; [|done]. unfold oneLine. simpl. by rewrite Hc.
  - inversion IH as [|? ? Hp Hr]; subst. constructor; [|done].
    unfold oneLine in *. simpl. by rewrite Hc.
Qed.

Lemma forallb_drop (p : ascii -> bool) (n : nat) (s : bytes) :
  forallb p s = true -> forallb p (drop n s) = true.
Proof.
  revert n. induction s as [|c s IH]; intros [|n]; simpl; try done.
  intros [_ Hs]%andb_prop. by apply IH.
Qed.

Lemma forallb_take (p : ascii -> bool) (n : nat) (s : bytes) :
  forallb p s = true -> forallb p (take n s) = true.
Proof.
  revert n. induction s as [|c s IH]; intros [|n]; simpl; try done.
  intros [Hc Hs]%andb_prop. rewrite Hc. by apply IH.
Qed.

Lemma trimLeft_forallb (p : ascii -> bool) (fuel : nat) (s : bytes) :
  forallb p s = true -> forallb p (Strings.trimLeft fuel s) = true.
Proof.
  revert s. induction fuel as [|fuel IH]; intros s Hs; simpl; [done|].
  destruct (Utf8.DecodeRune s) as [r [|size]]; [done|].
  destruct (Utf8.IsSpace r); [|done]. by apply IH, forallb_drop.
Qed.

Lemma trimRight_forallb (p : ascii -> bool) (fuel : nat) (s : bytes) :
  forallb p s = true -> forallb p (Strings.trimRight fuel s) = true.
Proof.
  revert s. induction fuel as [|fuel IH]; intros s Hs; simpl; [done|].
  destruct (Utf8.DecodeLastRune s) as [r [|size]]; [done|].
  destruct (Utf8.IsSpace r); [|done]. by apply IH, forallb_take.
Qed.

(** Trimming only removes bytes, so a trimmed line is still one line. *)
Lemma TrimSpace_oneLine (line : bytes) :
  oneLine line = true -> oneLine (Strings.TrimSpace line) = true.
Proof.
  intros H. unfold oneLine, Strings.TrimSpace.
  by apply trimRight_forallb, trimLeft_forallb.
Qed.

(** ** Trimming white space *)

Lemma ascii_not_cont (lo hi : Z) (c : ascii) :
  128 <= lo -> isASCII c = true -> byteIn lo hi c = false.
Proof.
  unfold isASCII, byteIn, Utf8.RuneSelf. intros Hlo Hc.
  apply Z.ltb_lt in Hc. apply andb_false_iff. left. apply Z.leb_gt. lia.
Qed.

Lemma DecodeRune_ascii (c : ascii) (s : bytes) :
  isASCII c = true -> Utf8.DecodeRune (c :: s) = (byteZ c, 1%nat).
Proof. unfold isASCII, Utf8.DecodeRune. by intros ->. Qed.

Lemma DecodeRune_app_ascii (x b : bytes) :
  x <> [] -> forallb isASCII b = true ->
  Utf8.DecodeRune (x ++ b) = Utf8.DecodeRune x.
Proof.
  intros Hx Hb. destruct x as [|b0 x]; [done|]. clear Hx.
  assert (forall c b', b = c :: b' -> forall lo hi, 128 <= lo -> byteIn lo hi c = false) as Hhead.
  { intros c b' -> lo hi Hlo. simpl in Hb. apply andb_prop in Hb as [Hc _].
    by apply ascii_not_cont. }
  assert (forall c c' b', b = c :: c' :: b' -> forall lo hi, 128 <= lo -> byteIn lo hi c' = false) as Hsnd.
  { intros c c' b' -> lo hi Hlo. simpl in Hb. apply andb_prop in Hb as [_ [Hc _]%andb_prop].
    by apply ascii_not_cont. }
  unfold Utf8.DecodeRune. cbn [app].
  destruct (byteZ b0 <? Utf8.RuneSelf); [done|].
  destruct (byteIn 194 223 b0).
  { destruct x as [|b1 x]; cbn [app]; [|done].
    destruct b as [|c b']; [done|]. unfold Utf8.cont. by rewrite (Hhead c b' eq_refl). }
  destruct (byteIn 224 239 b0).
  { destruct x as [|b1 [|b2 x]]; cbn [app]; [| |done].
    - destruct b as [|c [|c' b']]; [done|done|].
      rewrite (Hhead c (c' :: b') eq_refl); [done|].
      destruct (byteZ b0 =? 224); lia.
    - destruct b as [|c b']; [done|]. unfold Utf8.cont.
      rewrite (Hhead c b' eq_refl) by lia. by rewrite andb_false_r. }
  destruct (byteIn 240 244 b0); [|done].
  destruct x as [|b1 [|b2 [|b3 x]]]; cbn [app]; [| | |done].
  - destruct b as [|c [|c' [|c'' b']]]; [done|done|done|].
    rewrite (Hhead c _ eq_refl); [done|].
    destruct (byteZ b0 =? 240); lia.
  - destruct b as [|c [|c' b']]; [done|done|]. unfold Utf8.cont.
    rewrite (Hhead c _ eq_refl) by lia. by rewrite andb_false_r.
  - destruct b as [|c b']; [done|]. unfold Utf8.cont.
    rewrite (Hhead c _ eq_refl) by lia. by rewrite andb_false_r.
Qed.

Lemma DecodeRune_size (s : bytes) :
  (snd (Utf8.DecodeRune s) <= length s)%nat /\
  (s <> [] -> (1 <= snd (Utf8.DecodeRune s))%nat).
Proof.
  unfold Utf8.DecodeRune. destruct s as [|b0 s]; [done|].
  repeat match goal with
         | |- context [if ?b then _ else _] => destruct b
         | |- context [match ?l with [] => _ | _ :: _ => _ end] => destruct l
         end; simpl; split; lia.
Qed.

Lemma trimLeft_fuel (fuel1 fuel2 : nat) (s : bytes) :
  (length s <= fuel1)%nat -> (length s <= fuel2)%nat ->
  Strings.trimLeft fuel1 s = Strings.trimLeft fuel2 s.
Proof.
  revert fuel2 s. induction fuel1 as [|f1 IH]; intros [|f2] s H1 H2;
    try (destruct s; [|simpl in *; lia]); simpl; try done.
  destruct (DecodeRune_size s) as [Hle Hge].
  destruct (Utf8.DecodeRune s) as [r [|k]]; [done|].
  destruct (Utf8.IsSpace r); [|done].
  simpl in Hle. apply IH; rewrite length_drop; lia.
Qed.

Lemma ltrim_step (s : bytes) :
  ltrim s =
  match Utf8.DecodeRune s with
  | (r, O) => s
  | (r, size) => if Utf8.IsSpace r then ltrim (drop size s) else s
  end.
Proof.
  unfold ltrim. destruct s as [|c s]; [done|].
  cbn [length Strings.trimLeft].
  destruct (DecodeRune_size (c :: s)) as [Hle _].
  destruct (Utf8.DecodeRune (c :: s)) as [r [|k]]; [done|].
  destruct (Utf8.IsSpace r); [|done].
  simpl in Hle. apply trimLeft_fuel; rewrite length_drop; simpl; lia.
Qed.

Lemma space_is_ascii (c : ascii) :
  Regexp.member Regexp.PerlSpace c = true ->
  isASCII c = true /\ Utf8.IsSpace (byteZ c) = true.
Proof.
  destruct c as [[] [] [] [] [] [] [] []]; vm_compute; intros; (congruence || done).
Qed.

Lemma ltrim_spaces (a s : bytes) :
  forallb (Regexp.member Regexp.PerlSpace) a = true -> ltrim (a ++ s) = ltrim s.
Proof.
  induction a as [|c a IH]; [done|]. cbn [forallb app].
  intros [Hc Ha]%andb_prop. destruct (space_is_ascii c Hc) as [Hasc Hsp].
  rewrite ltrim_step, (DecodeRune_ascii _ _ Hasc), Hsp. cbn [drop]. by apply IH.
Qed.

Lemma ltrim_app_ascii (x b : bytes) :
  forallb isASCII b = true ->
  ltrim (x ++ b) = if isEmpty (ltrim x) then ltrim b else ltrim x ++ b.
Proof.
  intros Hb. remember (length x) as n eqn:Hn.
  revert x Hn. induction n as [n IH] using lt_wf_ind. intros x ->.
  destruct x as [|c x]; [done|].
  rewrite (ltrim_step (c :: x)), (ltrim_step ((c :: x) ++ b)).
  rewrite (DecodeRune_app_ascii (c :: x) b) by done.
  destruct (DecodeRune_size (c :: x)) as [Hle Hge].
  destruct (Utf8.DecodeRune (c :: x)) as [r [|k]]; [by specialize (Hge ltac:(done))|].
  destruct (Utf8.IsSpace r); [|done].
  simpl in Hle. rewrite drop_app_le by (simpl; lia).
  apply (IH (length (drop (S k) (c :: x)))); [|done].
  rewrite length_drop. simpl. lia.
Qed.

Lemma rtrim_space (s : bytes) (c : ascii) :
  Regexp.member Regexp.PerlSpace c = true -> rtrim (s ++ [c]) = rtrim s.
Proof.
  intros Hc. destruct (space_is_ascii c Hc) as [Hasc Hsp].
  unfold rtrim. rewrite length_app. cbn [length]. rewrite Nat.add_1_r.
  cbn [Strings.trimRight].
  assert (Utf8.DecodeLastRune (s ++ [c]) = (byteZ c, 1%nat)) as ->.
  { unfold Utf8.DecodeLastRune. rewrite length_app. cbn [length].
    rewrite Nat.add_1_r. rewrite lookup_app_r by lia.
    rewrite Nat.sub_diag. cbn. unfold isASCII in Hasc. by rewrite Hasc. }
  rewrite Hsp. rewrite length_app. cbn [length].
  replace (length s + 1 - 1)%nat with (length s) by lia.
  by rewrite take_app_length.
Qed.

Lemma rtrim_spaces (s b : bytes) :
  forallb (Regexp.member Regexp.PerlSpace) b = true -> rtrim (s ++ b) = rtrim s.
Proof.
  revert s. induction b as [|c b IH]; intros s; [by rewrite app_nil_r|].
  cbn [forallb]. intros [Hc Hb]%andb_prop.
  rewrite (cons_middle c s b), app_assoc, (IH _ Hb). by apply rtrim_space.
Qed.

Lemma TrimSpace_ltrim_rtrim (s : bytes) : Strings.TrimSpace s = rtrim (ltrim s).
Proof. reflexivity. Qed.

Lemma TrimSpace_padded (a x b : bytes) :
  forallb (Regexp.member Regexp.PerlSpace) a = true ->
  forallb (Regexp.member Regexp.PerlSpace) b = true ->
  Strings.TrimSpace (a ++ x ++ b) = Strings.TrimSpace x.
Proof.
  intros Ha Hb. rewrite !TrimSpace_ltrim_rtrim, (ltrim_spaces a _ Ha).
  assert (forallb isASCII b = true) as Hasc.
  { clear -Hb. induction b as [|c b IH]; [done|]. cbn [forallb] in *.
    apply andb_prop in Hb as [Hc Hb]. destruct (space_is_ascii c Hc) as [-> _].
    by apply IH. }
  rewrite (ltrim_app_ascii x b Hasc).
  destruct (ltrim x) as [|c x'] eqn:Hx; cbn [isEmpty].
  - pose proof (ltrim_spaces b [] Hb) as H. rewrite app_nil_r in H. by rewrite H.
  - by apply rtrim_spaces.
Qed.

Lemma scanBack_le (s : bytes) (start n : nat) :
  (Utf8.scanBack s start n <= start)%nat.
Proof.
  revert start. induction n as [|n IH]; intros start; simpl; [lia|].
  destruct (s !! start); [|lia]. destruct (Utf8.RuneStart a); [lia|].
  destruct start as [|p]; [lia|]. specialize (IH p). lia.
Qed.

Lemma DecodeLastRune_size (s : bytes) :
  (snd (Utf8.DecodeLastRune s) <= length s)%nat /\
  (s <> [] -> (1 <= snd (Utf8.DecodeLastRune s))%nat).
Proof.
  unfold Utf8.DecodeLastRune.
  destruct (length s) as [|last] eqn:Hlen.
  { destruct s; [done|discriminate]. }
  destruct (s !! last) as [c|] eqn:Hc.
  2:{ apply lookup_ge_None in Hc. lia. }
  destruct (byteZ c <? Utf8.RuneSelf); [simpl; split; lia|].
  set (start := match last with O => O | S p => _ end).
  assert (start <= last)%nat as Hstart.
  { subst start. destruct last as [|p]; [lia|].
    pose proof (scanBack_le s p (S (p - (S (S p) - Utf8.UTFMax)))). lia. }
  destruct (Utf8.DecodeRune (drop start s)) as [r size].
  destruct (Nat.eqb_spec (start + size) (S last)); simpl; split; lia.
Qed.

Lemma trimRight_fuel (fuel1 fuel2 : nat) (s : bytes) :
  (length s <= fuel1)%nat -> (length s <= fuel2)%nat ->
  Strings.trimRight fuel1 s = Strings.trimRight fuel2 s.
Proof.
  revert fuel2 s. induction fuel1 as [|f1 IH]; intros [|f2] s H1 H2;
    try (destruct s; [|simpl in *; lia]); simpl; try done.
  destruct (DecodeLastRune_size s) as [Hle Hge].
  destruct (Utf8.DecodeLastRune s) as [r [|k]]; [done|].
  destruct (Utf8.IsSpace r); [|done].
  simpl in Hle. apply IH; rewrite length_take; lia.
Qed.

Lemma rtrim_step (s : bytes) :
  rtrim s =
  match Utf8.DecodeLastRune s with
  | (r, O) => s
  | (r, size) =>
    if Utf8.IsSpace r then rtrim (take (length s - size) s) else s
  end.
Proof.
  unfold rtrim. destruct s as [|c s]; [done|].
  cbn [length Strings.trimRight].
  destruct (DecodeLastRune_size (c :: s)) as [Hle _].
  destruct (Utf8.DecodeLastRune (c :: s)) as [r [|k]]; [done|].
  destruct (Utf8.IsSpace r); [|done].
  simpl in Hle. apply trimRight_fuel; rewrite length_take; simpl; lia.
Qed.

(** What is left of trimming needs no trimming. *)
Lemma ltrim_fixed (s : bytes) : ltrim (ltrim s) = ltrim s.
Proof.
  remember (length s) as n eqn:Hn.
  revert s Hn. induction n as [n IH] using lt_wf_ind. intros s ->.
  rewrite (ltrim_step s).
  destruct (DecodeRune_size s) as [Hle Hge].
  destruct (Utf8.DecodeRune s) as [r [|k]] eqn:Hd.
  - rewrite ltrim_step, Hd. done.
  - destruct (Utf8.IsSpace r) eqn:Hsp.
    + destruct s as [|c s]; [simpl in Hle; lia|].
      apply (IH (length (drop (S k) (c :: s)))); [|done].
      rewrite length_drop. simpl. lia.
    + by rewrite ltrim_step, Hd, Hsp.
Qed.

Lemma rtrim_fixed (s : bytes) : rtrim (rtrim s) = rtrim s.
Proof.
  remember (length s) as n eqn:Hn.
  revert s Hn. induction n as [n IH] using lt_wf_ind. intros s ->.
  rewrite (rtrim_step s).
  destruct (DecodeLastRune_size s) as [Hle Hge].
  destruct (Utf8.DecodeLastRune s) as [r [|k]] eqn:Hd.
  - rewrite rtrim_step, Hd. done.
  - destruct (Utf8.IsSpace r) eqn:Hsp.
    + destruct s as [|c s]; [simpl in Hle; lia|].
      apply (IH (length (take (length (c :: s) - S k) (c :: s)))); [|done].
      rewrite length_take. simpl. lia.
    + by rewrite rtrim_step, Hd, Hsp.
Qed.

Lemma rtrim_prefix (s : bytes) : exists z, s = rtrim s ++ z.
Proof.
  remember (length s) as n eqn:Hn.
  revert s Hn. induction n as [n IH] using lt_wf_ind. intros s ->.
  rewrite (rtrim_step s).
  destruct (DecodeLastRune_size s) as [Hle Hge].
  destruct (Utf8.DecodeLastRune s) as [r [|k]] eqn:Hd.
  - exists []. by rewrite app_nil_r.
  - destruct (Utf8.IsSpace r); [|exists []; by rewrite app_nil_r].
    destruct s as [|c s]; [simpl in Hle; lia|].
    destruct (IH (length (take (length (c :: s) - S k) (c :: s)))
                ltac:(rewrite length_take; simpl; lia) _ eq_refl) as [z Hz].
    exists (z ++ drop (length (c :: s) - S k) (c :: s)).
    rewrite app_assoc, <- Hz. by rewrite take_drop.
Qed.

(** A rune that decodes properly decodes the same with more text after
    it. *)
Lemma DecodeRune_prefix (x z : bytes) (r : Z) (k : nat) :
  Utf8.DecodeRune x = (r, k) -> r <> Utf8.RuneError ->
  Utf8.DecodeRune (x ++ z) = (r, k).
Proof.
  unfold Utf8.DecodeRune. destruct x as [|b0 x]; [by intros [= <- <-]|].
  cbn [app].
  destruct (byteZ b0 <? Utf8.RuneSelf); [done|].
  destruct (byteIn 194 223 b0).
  { destruct x as [|b1 x]; cbn [app]; [by intros [= <- <-]|done]. }
  destruct (byteIn 224 239 b0).
  { destruct x as [|b1 [|b2 x]]; cbn [app];
      [by intros [= <- <-]|by intros [= <- <-]|done]. }
  destruct (byteIn 240 244 b0); [|done].
  destruct x as [|b1 [|b2 [|b3 x]]]; cbn [app];
    [by intros [= <- <-]|by intros [= <- <-]|by intros [= <- <-]|done].
Qed.

Lemma IsSpace_not_RuneError (r : Z) :
  Utf8.IsSpace r = true -> r <> Utf8.RuneError.
Proof. intros H ->. vm_compute in H. discriminate. Qed.

(** Trimming the back does not uncover white space at the front. *)
Lemma ltrim_rtrim (s : bytes) : ltrim s = s -> ltrim (rtrim s) = rtrim s.
Proof.
  intros Hs. destruct (rtrim_prefix s) as [z Hz].
  rewrite ltrim_step.
  destruct (Utf8.DecodeRune (rtrim s)) as [r [|k]] eqn:Hd; [done|].
  destruct (Utf8.IsSpace r) eqn:Hsp; [|done].
  exfalso.
  pose proof (DecodeRune_prefix _ z _ _ Hd (IsSpace_not_RuneError _ Hsp)) as Hd'.
  rewrite <- Hz in Hd'.
  rewrite ltrim_step, Hd', Hsp in Hs.
  apply (f_equal length) in Hs.
  assert (length (ltrim (drop (S k) s)) <= length (drop (S k) s))%nat as Hl.
  { clear. generalize (drop (S k) s). intros x. unfold ltrim.
    generalize (length x) at 1. intros fuel. revert x.
    induction fuel as [|f IH]; intros x; simpl; [lia|].
    destruct (Utf8.DecodeRune x) as [r [|k']]; [lia|].
    destruct (Utf8.IsSpace r); [|lia].
    specialize (IH (drop (S k') x)). rewrite length_drop in IH. lia. }
  rewrite length_drop in Hl.
  destruct (DecodeRune_size s) as [Hle _]. rewrite Hd' in Hle. simpl in Hle.
  lia.
Qed.

Lemma TrimSpace_idempotent (s : bytes) :
  Strings.TrimSpace (Strings.TrimSpace s) = Strings.TrimSpace s.
Proof.
  rewrite !TrimSpace_ltrim_rtrim.
  rewrite (ltrim_rtrim (ltrim s) (ltrim_fixed s)). apply rtrim_fixed.
Qed.

(** ** The matcher against its declarative reading *)

Lemma elem_starSplits (p : ascii -> bool) (s w rest : bytes) :
  (w, rest) ∈ Regexp.starSplits p s <-> s = w ++ rest /\ forallb p w = true.
Proof.
  revert w. induction s as [|c s IH]; intros w; simpl.
  - rewrite list_elem_of_singleton. split.
    + by intros [= -> ->].
    + intros [Hs _]. symmetry in Hs. apply app_eq_nil in Hs as [-> ->]. done.
  - destruct (p c) eqn:Hc.
    + rewrite elem_of_app, list_elem_of_fmap, list_elem_of_singleton. split.
      * intros [[[w' r'] [[= -> ->] Hin]]|[= -> ->]]; [|done].
        apply IH in Hin as [-> Hw]. simpl. by rewrite Hc.
      * intros [Hs Hw]. destruct w as [|c' w]; simpl in *.
        { right. by subst. }
        injection Hs as <- ->. apply andb_prop in Hw as [_ Hw].
        left. exists (w, rest). split; [done|]. by apply IH.
    + rewrite list_elem_of_singleton. split.
      * by intros [= -> ->].
      * intros [Hs Hw]. destruct w as [|c' w]; simpl in *; [by subst|].
        injection Hs as <- ->. by rewrite Hc in Hw.
Qed.

Lemma elem_plusSplits (p : ascii -> bool) (s w rest : bytes) :
  (w, rest) ∈ Regexp.plusSplits p s
  <-> s = w ++ rest /\ forallb p w = true /\ w <> [].
Proof.
  destruct s as [|c s]; simpl.
  - rewrite elem_of_nil. split; [done|].
    intros (Hs & _ & Hw). symmetry in Hs. by apply app_eq_nil in Hs as [-> _].
  - destruct (p c) eqn:Hc.
    + rewrite list_elem_of_fmap. split.
      * intros [[w' r'] [[= -> ->] Hin]].
        apply elem_starSplits in Hin as [-> Hw]. simpl. by rewrite Hc.
      * intros (Hs & Hw & Hne). destruct w as [|c' w]; [done|]. simpl in *.
        injection Hs as <- ->. apply andb_prop in Hw as [_ Hw].
        exists (w, rest). split; [done|]. by apply elem_starSplits.
    + rewrite elem_of_nil. split; [done|].
      intros (Hs & Hw & Hne). destruct w as [|c' w]; [done|]. simpl in *.
      injection Hs as <- ->. by rewrite Hc in Hw.
Qed.

(** [run] lists exactly the matches of the declarative reading. *)
Lemma elem_run (text : bytes) (r : Regexp.regexp) :
  forall s w g rest,
    (w, g, rest) ∈ Regexp.run text r s <-> matchesP text r s w g rest.
Proof.
  induction r as [| | |cl|cl|cl|i r IH|r1 IH1 r2 IH2]; intros s w g rest; simpl.
  - rewrite list_elem_of_singleton. split.
    + by intros [= -> -> ->].
    + by intros (-> & -> & ->).
  - destruct (Nat.eqb_spec (length s) (length text)) as [He|He].
    + rewrite list_elem_of_singleton. split.
      * by intros [= -> -> ->].
      * by intros (_ & -> & -> & ->).
    + rewrite elem_of_nil. split; [done|]. by intros [? _].
  - destruct s as [|c s]; simpl.
    + rewrite list_elem_of_singleton. split.
      * by intros [= -> -> ->].
      * by intros (_ & -> & -> & ->).
    + rewrite elem_of_nil. split; [done|]. by intros [? _].
  - destruct s as [|c s].
    { rewrite elem_of_nil. split; [done|]. by intros (c & ? & _). }
    destruct (Regexp.member cl c) eqn:Hc.
    + rewrite list_elem_of_singleton. split.
      * intros [= -> -> ->]. by exists c.
      * by intros (c' & [= <- <-] & _ & -> & ->).
    + rewrite elem_of_nil. split; [done|].
      intros (c' & [= <- <-] & Hm & _). congruence.
  - rewrite list_elem_of_fmap. split.
    + intros [[w' r'] [[= -> -> ->] Hin]].
      by apply elem_starSplits in Hin as [-> Hw].
    + intros (Hs & Hw & ->). exists (w, rest). split; [done|].
      by apply elem_starSplits.
  - rewrite list_elem_of_fmap. split.
    + intros [[w' r'] [[= -> -> ->] Hin]].
      by apply elem_plusSplits in Hin as (-> & Hw & Hne).
    + intros (Hs & Hw & Hne & ->). exists (w, rest). split; [done|].
      by apply elem_plusSplits.
  - rewrite list_elem_of_fmap. split.
    + intros [[[w' g'] r'] [[= -> -> ->] Hin]]. apply IH in Hin. eauto.
    + intros (g' & Hm & ->). exists (w, g', rest). split; [done|].
      by apply IH.
  - rewrite list_elem_of_bind. split.
    + intros [[[w1 g1] s1] [Hin2 Hin1]]. apply list_elem_of_fmap in Hin2.
      destruct Hin2 as [[[w2 g2] r2'] [[= -> -> ->] Hin2]]. simpl in *.
      apply IH1 in Hin1. apply IH2 in Hin2.
      exists w1, g1, s1, w2, g2. done.
    + intros (w1 & g1 & s1 & w2 & g2 & H1 & H2 & -> & ->).
      exists (w1, g1, s1). split; [|by apply IH1].
      apply list_elem_of_fmap. exists (w2, g2, rest). split; [done|].
      by apply IH2.
Qed.

Lemma matchesP_split (text : bytes) (r : Regexp.regexp) :
  forall s w g rest, matchesP text r s w g rest -> s = w ++ rest.
Proof.
  induction r as [| | |cl|cl|cl|i r IH|r1 IH1 r2 IH2];
    intros s w g rest; simpl.
  - by intros (-> & _ & ->).
  - by intros (_ & -> & _ & ->).
  - by intros (-> & -> & _ & ->).
  - by intros (c & -> & _ & -> & _).
  - by intros (-> & _).
  - by intros (-> & _).
  - intros (g' & Hm & _). eauto.
  - intros (w1 & g1 & s1 & w2 & g2 & H1 & H2 & -> & _).
    rewrite (IH1 _ _ _ _ H1), (IH2 _ _ _ _ H2). by rewrite app_assoc.
Qed.

Lemma accepts_Concat text r1 r2 s rest :
  accepts text (Regexp.Concat r1 r2) s rest
  <-> exists s1, accepts text r1 s s1 /\ accepts text r2 s1 rest.
Proof.
  unfold accepts; simpl. split.
  - intros (w & g & w1 & g1 & s1 & w2 & g2 & H1 & H2 & _). eauto 8.
  - intros (s1 & (w1 & g1 & H1) & (w2 & g2 & H2)).
    exists (w1 ++ w2), (g1 ++ g2), w1, g1, s1, w2, g2. done.
Qed.

Lemma accepts_Capture text i r s rest :
  accepts text (Regexp.Capture i r) s rest <-> accepts text r s rest.
Proof.
  unfold accepts; simpl. split.
  - intros (w & g & g' & H & _). eauto.
  - intros (w & g & H). exists w, ((i, w) :: g), g. done.
Qed.

Lemma accepts_Star text cl s rest :
  accepts text (Regexp.Star cl) s rest
  <-> exists w, s = w ++ rest /\ forallb (Regexp.member cl) w = true.
Proof.
  unfold accepts; simpl. split.
  - intros (w & g & -> & Hw & _). eauto.
  - intros (w & -> & Hw). by exists w, [].
Qed.

Lemma accepts_Plus text cl s rest :
  accepts text (Regexp.Plus cl) s rest
  <-> exists w, s = w ++ rest /\ forallb (Regexp.member cl) w = true /\ w <> [].
Proof.
  unfold accepts; simpl. split.
  - intros (w & g & -> & Hw & Hne & _). eauto.
  - intros (w & -> & Hw & Hne). by exists w, [].
Qed.

Lemma accepts_One text cl s rest :
  accepts text (Regexp.One cl) s rest
  <-> exists c, s = c :: rest /\ Regexp.member cl c = true.
Proof.
  unfold accepts; simpl. split.
  - intros (w & g & c & -> & Hc & _). eauto.
  - intros (c & -> & Hc). by exists [c], [], c.
Qed.

Lemma accepts_BeginText text s rest :
  accepts text Regexp.BeginText s rest <-> length s = length text /\ rest = s.
Proof.
  unfold accepts; simpl. split.
  - by intros (w & g & Hl & _ & _ & ->).
  - intros (Hl & ->). by exists [], [].
Qed.

Lemma accepts_EndText text s rest :
  accepts text Regexp.EndText s rest <-> s = [] /\ rest = [].
Proof.
  unfold accepts; simpl. split.
  - by intros (w & g & -> & _ & _ & ->).
  - intros (-> & ->). by exists [], [].
Qed.

Lemma accepts_EmptyMatch text s rest :
  accepts text Regexp.EmptyMatch s rest <-> rest = s.
Proof.
  unfold accepts; simpl. split.
  - by intros (w & g & _ & _ & ->).
  - intros ->. by exists [], [].
Qed.

(** ** Facts on the character classes *)

Lemma space_not_bar (c : ascii) :
  Regexp.member Regexp.PerlSpace c = true ->
  Regexp.member (Regexp.NotLit bar) c = true.
Proof. by_bytes c. Qed.

Lemma word_not_bar (c : ascii) :
  Regexp.member Regexp.PerlWord c = true ->
  Regexp.member (Regexp.NotLit bar) c = true.
Proof. by_bytes c. Qed.

Lemma word_not_space (c : ascii) :
  Regexp.member Regexp.PerlWord c = true ->
  Regexp.member Regexp.PerlSpace c = false.
Proof. by_bytes c. Qed.

Lemma space_not_word (c : ascii) :
  Regexp.member Regexp.PerlSpace c = true ->
  Regexp.member Regexp.PerlWord c = false.
Proof. by_bytes c. Qed.

Lemma member_Lit (x c : ascii) : Regexp.member (Regexp.Lit x) c = true <-> c = x.
Proof. simpl. apply Ascii.eqb_eq. Qed.

Lemma forallb_weaken (p q : ascii -> bool) (s : bytes) :
  (forall c, p c = true -> q c = true) ->
  forallb p s = true -> forallb q s = true.
Proof.
  intros Hpq. induction s as [|c s IH]; simpl; [done|].
  intros [Hc Hs]%andb_prop. by rewrite (Hpq _ Hc), IH.
Qed.

(** ** Cutting a line at its bars *)

Lemma Cut_app (a b : bytes) :
  forallb (Regexp.member (Regexp.NotLit bar)) a = true ->
  Cut (a ++ bar :: b) bar = Some (a, b).
Proof.
  induction a as [|c a IH]; simpl; [done|].
  intros [Hc Ha]%andb_prop. apply negb_true_iff in Hc. rewrite Hc.
  by rewrite (IH Ha).
Qed.

Lemma Cut_Some (s a b : bytes) :
  Cut s bar = Some (a, b) ->
  s = a ++ bar :: b /\ forallb (Regexp.member (Regexp.NotLit bar)) a = true.
Proof.
  revert a. induction s as [|c s IH]; intros a; simpl; [done|].
  destruct (Ascii.eqb c bar) eqn:Hc.
  - intros [= <- <-]. apply Ascii.eqb_eq in Hc as ->. done.
  - destruct (Cut s bar) as [[a' b']|]; [|done].
    intros [= <- <-]. destruct (IH a' eq_refl) as [-> Ha].
    simpl. by rewrite Hc, Ha.
Qed.

Lemma Cut_oneLine (s a b : bytes) :
  Cut s bar = Some (a, b) -> oneLine s = true -> oneLine b = true.
Proof.
  intros [-> _]%Cut_Some. unfold oneLine. rewrite forallb_app. simpl.
  by intros [_ Hb]%andb_prop.
Qed.

Lemma isEmpty_false (s : bytes) : isEmpty s = false <-> s <> [].
Proof. by destruct s. Qed.

Lemma skipWhile_app (p : ascii -> bool) (a b : bytes) :
  forallb p a = true -> skipWhile p (a ++ b) = skipWhile p b.
Proof.
  induction a as [|c a IH]; simpl; [done|].
  intros [Hc Ha]%andb_prop. rewrite Hc. by apply IH.
Qed.

Lemma takeWhile_app (p : ascii -> bool) (a b : bytes) :
  forallb p a = true -> takeWhile p (a ++ b) = a ++ takeWhile p b.
Proof.
  induction a as [|c a IH]; simpl; [done|].
  intros [Hc Ha]%andb_prop. rewrite Hc. by rewrite IH.
Qed.

Lemma takeWhile_skipWhile (p : ascii -> bool) (s : bytes) :
  s = takeWhile p s ++ skipWhile p s.
Proof.
  induction s as [|c s IH]; simpl; [done|].
  destruct (p c); simpl; [by rewrite <- IH|done].
Qed.

Lemma takeWhile_forallb (p : ascii -> bool) (s : bytes) :
  forallb p (takeWhile p s) = true.
Proof.
  induction s as [|c s IH]; simpl; [done|].
  destruct (p c) eqn:Hc; simpl; [by rewrite Hc|done].
Qed.

Lemma wordColumn_intro (a w b : bytes) :
  forallb (Regexp.member Regexp.PerlSpace) a = true ->
  forallb (Regexp.member Regexp.PerlWord) w = true -> w <> [] ->
  forallb (Regexp.member Regexp.PerlSpace) b = true ->
  wordColumn (a ++ w ++ b) = true.
Proof.
  intros Ha Hw Hne Hb. unfold wordColumn.
  rewrite (skipWhile_app _ a _ Ha).
  assert (skipWhile (Regexp.member Regexp.PerlSpace) (w ++ b) = w ++ b) as ->.
  { destruct w as [|c w]; [done|]. cbn [app skipWhile forallb] in *.
    apply andb_prop in Hw as [Hc _]. by rewrite (word_not_space _ Hc). }
  rewrite (takeWhile_app _ w _ Hw), (skipWhile_app _ w _ Hw).
  assert (takeWhile (Regexp.member Regexp.PerlWord) b = []
          /\ skipWhile (Regexp.member Regexp.PerlWord) b = b) as [-> ->].
  { destruct b as [|c b]; [done|]. cbn [takeWhile skipWhile forallb] in *.
    apply andb_prop in Hb as [Hc _]. by rewrite (space_not_word _ Hc). }
  rewrite app_nil_r, Hb. by destruct w.
Qed.

Lemma wordColumn_elim (c : bytes) :
  wordColumn c = true ->
  exists a w b,
    c = a ++ w ++ b /\
    forallb (Regexp.member Regexp.PerlSpace) a = true /\
    forallb (Regexp.member Regexp.PerlWord) w = true /\ w <> [] /\
    forallb (Regexp.member Regexp.PerlSpace) b = true.
Proof.
  unfold wordColumn. intros [Hw Hb]%andb_prop.
  apply negb_true_iff, isEmpty_false in Hw.
  exists (takeWhile (Regexp.member Regexp.PerlSpace) c),
    (takeWhile (Regexp.member Regexp.PerlWord)
       (skipWhile (Regexp.member Regexp.PerlSpace) c)),
    (skipWhile (Regexp.member Regexp.PerlWord)
       (skipWhile (Regexp.member Regexp.PerlSpace) c)).
  rewrite <- !takeWhile_skipWhile.
  split; [done|]. split; [apply takeWhile_forallb|].
  split; [apply takeWhile_forallb|]. done.
Qed.

(** ** The pattern, column by column *)

Lemma accepts_column (text : bytes) (cl : Regexp.class) (i : nat)
    (R : Regexp.regexp) (s rest : bytes) :
  accepts text
    (Regexp.Concat (Regexp.Star Regexp.PerlSpace)
       (Regexp.Concat (Regexp.Capture i (Regexp.Plus cl))
          (Regexp.Concat (Regexp.Star Regexp.PerlSpace)
             (Regexp.Concat (Regexp.One (Regexp.Lit bar)) R)))) s rest
  <-> exists a w b r,
        s = (a ++ w ++ b) ++ bar :: r /\
        forallb (Regexp.member Regexp.PerlSpace) a = true /\
        forallb (Regexp.member cl) w = true /\ w <> [] /\
        forallb (Regexp.member Regexp.PerlSpace) b = true /\
        accepts text R r rest.
Proof.
  split.
  - intros (s1 & (a & -> & Ha)%accepts_Star & H1)%accepts_Concat.
    apply accepts_Concat in H1 as (s2 & Hw & H2).
    apply accepts_Capture, accepts_Plus in Hw as (w & -> & Hw & Hne).
    apply accepts_Concat in H2 as (s3 & (b & -> & Hb)%accepts_Star & H3).
    apply accepts_Concat in H3 as (r & (c & -> & Hc)%accepts_One & HR).
    apply member_Lit in Hc as ->.
    exists a, w, b, r. by rewrite <- !app_assoc.
  - intros (a & w & b & r & -> & Ha & Hw & Hne & Hb & HR).
    rewrite <- !app_assoc.
    apply accepts_Concat. eexists. split; [apply accepts_Star; eauto|].
    apply accepts_Concat. eexists.
    split; [apply accepts_Capture, accepts_Plus; eauto|].
    apply accepts_Concat. eexists. split; [apply accepts_Star; eauto|].
    apply accepts_Concat. exists r. split; [|done].
    apply accepts_One. exists bar. split; [done|]. by apply member_Lit.
Qed.

(** The first column, [([^|]+)\s*\|]. *)
Lemma accepts_firstColumn (text : bytes) (R : Regexp.regexp) (s rest : bytes) :
  accepts text
    (Regexp.Concat (Regexp.Capture 1 (Regexp.Plus (Regexp.NotLit bar)))
       (Regexp.Concat (Regexp.Star Regexp.PerlSpace)
          (Regexp.Concat (Regexp.One (Regexp.Lit bar)) R))) s rest
  <-> exists c r, Cut s bar = Some (c, r) /\ c <> [] /\ accepts text R r rest.
Proof.
  split.
  - intros (s1 & Hw & H1)%accepts_Concat.
    apply accepts_Capture, accepts_Plus in Hw as (w & -> & Hw & Hne).
    apply accepts_Concat in H1 as (s2 & (b & -> & Hb)%accepts_Star & H2).
    apply accepts_Concat in H2 as (r & (c & -> & Hc)%accepts_One & HR).
    apply member_Lit in Hc as ->.
    exists (w ++ b), r. rewrite app_assoc. split; [|split; [|done]].
    + apply Cut_app. rewrite forallb_app, Hw. simpl.
      by apply (forallb_weaken _ _ _ space_not_bar).
    + by destruct w.
  - intros (c & r & [-> Hc]%Cut_Some & Hne & HR).
    apply accepts_Concat. exists (bar :: r).
    split; [apply accepts_Capture, accepts_Plus; eauto|].
    apply accepts_Concat. exists (bar :: r).
    split; [apply accepts_Star; by exists []|].
    apply accepts_Concat. exists r. split; [|done].
    apply accepts_One. exists bar. split; [done|]. by apply member_Lit.
Qed.

(** A middle column, [\s*([^|]+)\s*\|]. *)
Lemma accepts_middleColumn (text : bytes) (i : nat) (R : Regexp.regexp)
    (s rest : bytes) :
  accepts text
    (Regexp.Concat (Regexp.Star Regexp.PerlSpace)
       (Regexp.Concat (Regexp.Capture i (Regexp.Plus (Regexp.NotLit bar)))
          (Regexp.Concat (Regexp.Star Regexp.PerlSpace)
             (Regexp.Concat (Regexp.One (Regexp.Lit bar)) R)))) s rest
  <-> exists c r, Cut s bar = Some (c, r) /\ c <> [] /\ accepts text R r rest.
Proof.
  rewrite accepts_column. split.
  - intros (a & w & b & r & -> & Ha & Hw & Hne & Hb & HR).
    exists (a ++ w ++ b), r. split; [|split; [|done]].
    + apply Cut_app. rewrite !forallb_app, Hw.
      rewrite (forallb_weaken _ _ _ space_not_bar Ha).
      by rewrite (forallb_weaken _ _ _ space_not_bar Hb).
    + destruct a; [by destruct w|done].
  - intros (c & r & [-> Hc]%Cut_Some & Hne & HR).
    exists [], c, [], r. by rewrite app_nil_r.
Qed.

(** The status column, [\s*(\w+)\s*\|]. *)
Lemma accepts_statusColumn (text : bytes) (i : nat) (R : Regexp.regexp)
    (s rest : bytes) :
  accepts text
    (Regexp.Concat (Regexp.Star Regexp.PerlSpace)
       (Regexp.Concat (Regexp.Capture i (Regexp.Plus Regexp.PerlWord))
          (Regexp.Concat (Regexp.Star Regexp.PerlSpace)
             (Regexp.Concat (Regexp.One (Regexp.Lit bar)) R)))) s rest
  <-> exists c r,
        Cut s bar = Some (c, r) /\ wordColumn c = true /\ accepts text R r rest.
Proof.
  rewrite accepts_column. split.
  - intros (a & w & b & r & -> & Ha & Hw & Hne & Hb & HR).
    exists (a ++ w ++ b), r. split; [|split; [|done]].
    + apply Cut_app. rewrite !forallb_app.
      rewrite (forallb_weaken _ _ _ word_not_bar Hw).
      rewrite (forallb_weaken _ _ _ space_not_bar Ha).
      by rewrite (forallb_weaken _ _ _ space_not_bar Hb).
    + by apply wordColumn_intro.
  - intros (c & r & [-> Hc]%Cut_Some & Hwc & HR).
    apply wordColumn_elim in Hwc as (a & w & b & -> & Ha & Hw & Hne & Hb).
    by exists a, w, b, r.
Qed.

Lemma oneLine_any (s : bytes) :
  oneLine s = forallb (Regexp.member Regexp.AnyCharNotNL) s.
Proof.
  unfold oneLine. induction s as [|c s IH]; simpl; [done|].
  rewrite IH. f_equal.
  destruct c as [[] [] [] [] [] [] [] []]; reflexivity.
Qed.

(** The last column, [\s*(.+)$], on text without a line break. *)
Lemma accepts_lastColumn (text : bytes) (i : nat) (s rest : bytes) :
  oneLine s = true ->
  accepts text
    (Regexp.Concat (Regexp.Star Regexp.PerlSpace)
       (Regexp.Concat (Regexp.Capture i (Regexp.Plus Regexp.AnyCharNotNL))
          (Regexp.Concat Regexp.EndText Regexp.EmptyMatch))) s rest
  <-> s <> [] /\ rest = [].
Proof.
  intros Hs. split.
  - intros (s1 & (a & -> & Ha)%accepts_Star & H1)%accepts_Concat.
    apply accepts_Concat in H1 as (s2 & Hw & H2).
    apply accepts_Capture, accepts_Plus in Hw as (w & -> & Hw & Hne).
    apply accepts_Concat in H2 as (s3 & (-> & ->)%accepts_EndText & H3).
    apply accepts_EmptyMatch in H3 as ->.
    split; [|done]. destruct a; [by destruct w|done].
  - intros [Hne ->].
    apply accepts_Concat. exists s.
    split; [apply accepts_Star; by exists []|].
    apply accepts_Concat. exists [].
    split.
    + apply accepts_Capture, accepts_Plus. exists s.
      rewrite app_nil_r, <- oneLine_any. done.
    + apply accepts_Concat. exists [].
      split; [by apply accepts_EndText|by apply accepts_EmptyMatch].
Qed.

(** The pattern accepts a line exactly when the line has the five-field
    shape. *)
Lemma sensorRegex_shape (text : bytes) :
  oneLine text = true ->
  (exists rest, accepts text sensorRegex text rest)
  <-> fiveFieldShape text = true.
Proof.
  intros Hline. unfold sensorRegex, fiveFieldShape, columns.
  cbn [foldr app]. split.
  - intros (rest & (s0 & [_ ->]%accepts_BeginText & H1)%accepts_Concat).
    apply accepts_firstColumn in H1 as (c1 & r1 & HC1 & Hn1 & H2).
    apply accepts_middleColumn in H2 as (c2 & r2 & HC2 & Hn2 & H3).
    apply accepts_statusColumn in H3 as (c3 & r3 & HC3 & Hw3 & H4).
    apply accepts_middleColumn in H4 as (c4 & r4 & HC4 & Hn4 & H5).
    apply accepts_lastColumn in H5 as [Hn5 _];
      [|by eauto using Cut_oneLine].
    rewrite HC1, HC2, HC3, HC4, Hw3.
    apply isEmpty_false in Hn1, Hn2, Hn4, Hn5.
    by rewrite Hn1, Hn2, Hn4, Hn5.
  - destruct (Cut text bar) as [[c1 r1]|] eqn:HC1; [|done].
    destruct (Cut r1 bar) as [[c2 r2]|] eqn:HC2; [|done].
    destruct (Cut r2 bar) as [[c3 r3]|] eqn:HC3; [|done].
    destruct (Cut r3 bar) as [[c4 r4]|] eqn:HC4; [|done].
    intros [[[[Hn1 Hn2]%andb_prop Hw3]%andb_prop Hn4]%andb_prop Hn5]%andb_prop.
    apply negb_true_iff, isEmpty_false in Hn1, Hn2, Hn4, Hn5.
    exists []. apply accepts_Concat. exists text.
    split; [by apply accepts_BeginText|].
    apply accepts_firstColumn. exists c1, r1. do 2 (split; [done|]).
    apply accepts_middleColumn. exists c2, r2. do 2 (split; [done|]).
    apply accepts_statusColumn. exists c3, r3. do 2 (split; [done|]).
    apply accepts_middleColumn. exists c4, r4. do 2 (split; [done|]).
    apply accepts_lastColumn; [by eauto using Cut_oneLine|done].
Qed.

(** ** The Record Parser *)

Lemma run_anchored (text : bytes) (R : Regexp.regexp) (s : bytes) :
  length s <> length text ->
  Regexp.run text (Regexp.Concat Regexp.BeginText R) s = [].
Proof.
  intros Hl. cbn [Regexp.run].
  by destruct (Nat.eqb_spec (length s) (length text)).
Qed.

(** A pattern that starts with [^] matches at the start of the text or
    nowhere. *)
Lemma search_anchored (text : bytes) (R : Regexp.regexp) (s : bytes) :
  (length s < length text)%nat ->
  Regexp.search text (Regexp.Concat Regexp.BeginText R) s = None.
Proof.
  induction s as [|c s IH]; intros Hl.
  - cbn [Regexp.search]. rewrite run_anchored; [done|lia].
  - cbn [Regexp.search]. rewrite run_anchored; [|lia].
    apply IH. simpl in Hl. lia.
Qed.

Lemma search_text (text : bytes) (R : Regexp.regexp) :
  Regexp.search text (Regexp.Concat Regexp.BeginText R) text
  = head (Regexp.run text (Regexp.Concat Regexp.BeginText R) text).
Proof.
  destruct text as [|c text]; cbn [Regexp.search].
  - by destruct (Regexp.run _ _ _).
  - destruct (Regexp.run _ _ _); [|done].
    apply search_anchored. simpl. lia.
Qed.

Lemma sensorRegex_anchored :
  exists R, sensorRegex = Regexp.Concat Regexp.BeginText R.
Proof. eexists. reflexivity. Qed.

Lemma search_sensorRegex (text : bytes) :
  Regexp.search text sensorRegex text = head (Regexp.run text sensorRegex text).
Proof. destruct sensorRegex_anchored as [R ->]. apply search_text. Qed.

Lemma FindStringSubmatch_length (text : bytes) :
  length (Regexp.FindStringSubmatch sensorRegex text)
  = match Regexp.run text sensorRegex text with
    | [] => 0%nat
    | _ :: _ => 6%nat
    end.
Proof.
  unfold Regexp.FindStringSubmatch. rewrite search_sensorRegex.
  by destruct (Regexp.run text sensorRegex text).
Qed.

Lemma run_nil_iff (text : bytes) :
  Regexp.run text sensorRegex text = []
  <-> ~ exists rest, accepts text sensorRegex text rest.
Proof.
  split.
  - intros Hrun (rest & w & g & Hm). apply elem_run in Hm.
    rewrite Hrun in Hm. by apply elem_of_nil in Hm.
  - intros Hno. destruct (Regexp.run text sensorRegex text) as [|[[w g] rest] l] eqn:E;
      [done|].
    destruct Hno. exists rest, w, g. apply elem_run. rewrite E. left.
Qed.

(** The Record Parser rejects a line exactly when the line does not have
    the five-field shape. *)
Lemma recordParser_None (line : bytes) :
  oneLine line = true ->
  recordParser line = None <-> fiveFieldShape line = false.
Proof.
  intros Hline. unfold recordParser.
  rewrite FindStringSubmatch_length.
  pose proof (sensorRegex_shape line Hline) as Hshape.
  destruct (Regexp.run line sensorRegex line) as [|[[w g] rest] l] eqn:E; cbn.
  - split; [intros _|done].
    apply not_true_is_false. intros H. apply Hshape in H.
    by apply run_nil_iff in E.
  - split; [done|]. intros Hf.
    assert (fiveFieldShape line = true) as Ht; [|congruence].
    apply Hshape. exists rest, w, g. apply elem_run. rewrite E. left.
Qed.

Lemma recordParser_Some (line : bytes) :
  oneLine line = true ->
  is_Some (recordParser line) <-> fiveFieldShape line = true.
Proof.
  intros Hline. pose proof (recordParser_None line Hline) as H.
  destruct (recordParser line) eqn:E.
  - split; [intros _|by eauto].
    destruct (fiveFieldShape line); [done|].
    destruct H as [_ H]. by specialize (H eq_refl).
  - split; [by intros [? [=]]|]. intros F.
    destruct H as [H _]. specialize (H eq_refl). congruence.
Qed.

Lemma matchesP_column (text : bytes) (cl : Regexp.class) (i : nat)
    (R : Regexp.regexp) (s w : bytes) (g : list (nat * bytes)) (rest : bytes) :
  matchesP text
    (Regexp.Concat (Regexp.Star Regexp.PerlSpace)
       (Regexp.Concat (Regexp.Capture i (Regexp.Plus cl))
          (Regexp.Concat (Regexp.Star Regexp.PerlSpace)
             (Regexp.Concat (Regexp.One (Regexp.Lit bar)) R)))) s w g rest ->
  exists a wi b r w' g',
    s = (a ++ wi ++ b) ++ bar :: r /\
    forallb (Regexp.member Regexp.PerlSpace) a = true /\
    forallb (Regexp.member cl) wi = true /\ wi <> [] /\
    forallb (Regexp.member Regexp.PerlSpace) b = true /\
    matchesP text R r w' g' rest /\ g = (i, wi) :: g'.
Proof.
  cbn [matchesP].
  intros (a & ga & s1 & v1 & h1 & (-> & Ha & ->) & H1 & -> & ->).
  destruct H1 as (wi & gi & s2 & v2 & h2 & (g' & (-> & Hw & Hne & ->) & ->)
                  & H2 & -> & ->).
  destruct H2 as (b & gb & s3 & v3 & h3 & (-> & Hb & ->) & H3 & -> & ->).
  destruct H3 as (wb & gbar & r & w' & gr & (c & -> & Hc & -> & ->)
                  & HR & -> & ->).
  apply member_Lit in Hc as ->.
  exists a, wi, b, r, w', gr. by rewrite <- !app_assoc.
Qed.

Lemma matchesP_firstColumn (text : bytes) (R : Regexp.regexp) (s w : bytes)
    (g : list (nat * bytes)) (rest : bytes) :
  matchesP text
    (Regexp.Concat (Regexp.Capture 1 (Regexp.Plus (Regexp.NotLit bar)))
       (Regexp.Concat (Regexp.Star Regexp.PerlSpace)
          (Regexp.Concat (Regexp.One (Regexp.Lit bar)) R))) s w g rest ->
  exists wi b r w' g',
    s = (wi ++ b) ++ bar :: r /\
    forallb (Regexp.member (Regexp.NotLit bar)) wi = true /\ wi <> [] /\
    forallb (Regexp.member Regexp.PerlSpace) b = true /\
    matchesP text R r w' g' rest /\ g = (1%nat, wi) :: g'.
Proof.
  cbn [matchesP].
  intros (wi & gi & s2 & v2 & h2 & (g' & (-> & Hw & Hne & ->) & ->)
          & H2 & -> & ->).
  destruct H2 as (b & gb & s3 & v3 & h3 & (-> & Hb & ->) & H3 & -> & ->).
  destruct H3 as (wb & gbar & r & w' & gr & (c & -> & Hc & -> & ->)
                  & HR & -> & ->).
  apply member_Lit in Hc as ->.
  exists wi, b, r, w', gr. by rewrite <- !app_assoc.
Qed.

Lemma matchesP_lastColumn (text : bytes) (i : nat) (s w : bytes)
    (g : list (nat * bytes)) (rest : bytes) :
  matchesP text
    (Regexp.Concat (Regexp.Star Regexp.PerlSpace)
       (Regexp.Concat (Regexp.Capture i (Regexp.Plus Regexp.AnyCharNotNL))
          (Regexp.Concat Regexp.EndText Regexp.EmptyMatch))) s w g rest ->
  exists a wi,
    s = a ++ wi /\ forallb (Regexp.member Regexp.PerlSpace) a = true /\
    wi <> [] /\ g = [(i, wi)].
Proof.
  cbn [matchesP].
  intros (a & ga & s1 & v1 & h1 & (-> & Ha & ->) & H1 & -> & ->).
  destruct H1 as (wi & gi & s2 & v2 & h2 & (g' & (-> & Hw & Hne & ->) & ->)
                  & H2 & -> & ->).
  destruct H2 as (we & ge & s3 & v3 & h3 & (-> & -> & -> & ->) & H3 & -> & ->).
  destruct H3 as (-> & -> & _).
  exists a, wi. by rewrite app_nil_r.
Qed.

(** The groups of any match of the pattern, against the columns of the
    text. *)
Lemma sensorRegex_groups (text w : bytes) (g : list (nat * bytes))
    (rest : bytes) :
  matchesP text sensorRegex text w g rest ->
  exists c1 c2 c3 c4 c5 w1 w2 w3 w4 w5,
    columns text = Some (c1, c2, c3, c4, c5) /\
    g = [(1%nat, w1); (2%nat, w2); (3%nat, w3); (4%nat, w4); (5%nat, w5)] /\
    Strings.TrimSpace w1 = Strings.TrimSpace c1 /\
    Strings.TrimSpace w2 = Strings.TrimSpace c2 /\
    Strings.TrimSpace w3 = Strings.TrimSpace c3 /\
    Strings.TrimSpace w4 = Strings.TrimSpace c4 /\
    Strings.TrimSpace w5 = Strings.TrimSpace c5.
Proof.
  unfold sensorRegex. cbn [foldr app].
  intros (w0 & g0 & s0 & v0 & h0 & (_ & -> & -> & ->) & H1 & -> & ->).
  apply matchesP_firstColumn in H1
    as (w1 & b1 & r1 & v1 & g1 & Ht & Hw1 & Hn1 & Hb1 & H2 & ->).
  apply matchesP_column in H2
    as (a2 & w2 & b2 & r2 & v2 & g2 & -> & Ha2 & Hw2 & Hn2 & Hb2 & H3 & ->).
  apply matchesP_column in H3
    as (a3 & w3 & b3 & r3 & v3 & g3 & -> & Ha3 & Hw3 & Hn3 & Hb3 & H4 & ->).
  apply matchesP_column in H4
    as (a4 & w4 & b4 & r4 & v4 & g4 & -> & Ha4 & Hw4 & Hn4 & Hb4 & H5 & ->).
  apply matchesP_lastColumn in H5 as (a5 & w5 & -> & Ha5 & Hn5 & ->).
  exists (w1 ++ b1), (a2 ++ w2 ++ b2), (a3 ++ w3 ++ b3), (a4 ++ w4 ++ b4),
    (a5 ++ w5), w1, w2, w3, w4, w5.
  pose proof (fun s => forallb_weaken _ _ s space_not_bar) as Hsb.
  pose proof (fun s => forallb_weaken _ _ s word_not_bar) as Hwb.
  split.
  { unfold columns. rewrite Ht.
    rewrite Cut_app by (rewrite forallb_app, Hw1; by apply Hsb).
    rewrite Cut_app by (rewrite !forallb_app, Hw2, (Hsb _ Ha2); by apply Hsb).
    rewrite Cut_app
      by (rewrite !forallb_app, (Hwb _ Hw3), (Hsb _ Ha3); by apply Hsb).
    rewrite Cut_app by (rewrite !forallb_app, Hw4, (Hsb _ Ha4); by apply Hsb).
    done. }
  split; [done|].
  split; [symmetry; apply (TrimSpace_padded [] w1 b1); done|].
  split; [symmetry; by apply TrimSpace_padded|].
  split; [symmetry; by apply TrimSpace_padded|].
  split; [symmetry; by apply TrimSpace_padded|].
  symmetry. rewrite <- (app_nil_r w5) at 1. by apply TrimSpace_padded.
Qed.

(** The Record Parser on the text of a line: the five columns, each
    trimmed, when the line has the five-field shape. *)
Lemma recordParser_columns (line : bytes) :
  oneLine line = true ->
  recordParser line =
  if fiveFieldShape line then
    match columns line with
    | Some (c1, c2, c3, c4, c5) =>
      Some (Strings.TrimSpace c1, Strings.TrimSpace c2, Strings.TrimSpace c3,
            Strings.TrimSpace c4, Strings.TrimSpace c5)
    | None => None
    end
  else None.
Proof.
  intros Hline. destruct (fiveFieldShape line) eqn:Hshape;
    [|by apply recordParser_None].
  unfold recordParser, Regexp.FindStringSubmatch.
  rewrite search_sensorRegex.
  destruct (Regexp.run line sensorRegex line) as [|[[w g] rest] l] eqn:E.
  - apply run_nil_iff in E. destruct E. by apply sensorRegex_shape.
  - assert ((w, g, rest) ∈ Regexp.run line sensorRegex line) as Hin
      by (rewrite E; left).
    apply elem_run, sensorRegex_groups in Hin
      as (c1 & c2 & c3 & c4 & c5 & w1 & w2 & w3 & w4 & w5 & -> & -> &
          <- & <- & <- & <- & <-).
    reflexivity.
Qed.

(** ** The loop of the Report Parser *)

(** The loop body, with the Record Parser made explicit. *)
Lemma loopBody_record (sensors : list SensorData) (line : bytes) :
  loopBody sensors line =
  if isEmpty (Strings.TrimSpace line) then sensors
  else
    match recordParser (Strings.TrimSpace line) with
    | None => sensors
    | Some (name, id, status, entity, valueStr) =>
      if negb (bytes_eqb status (str "ok")) then sensors
      else if Strings.Contains valueStr (str "No Reading") then sensors
      else
        if float64_eqb (parseValue valueStr).1.1 float64_zero
           && bytes_eqb (parseValue valueStr).1.2 []
        then sensors
        else
          sensors ++
            [{| Name := name; ID := id; Status := status; Entity := entity;
                Value := (parseValue valueStr).1.1;
                Unit := (parseValue valueStr).1.2;
                Type_ := (parseValue valueStr).2 |}]
    end.
Proof.
  unfold loopBody, recordParser.
  destruct (isEmpty _); [done|].
  destruct (negb (length _ =? 6)%nat); [done|].
  destruct (negb _); [done|]. destruct (Strings.Contains _ _); [done|].
  by destruct (parseValue _) as [[value unit] sensorType].
Qed.

(** An iteration appends to [sensors] and does not look at it. *)
Lemma loopBody_app (sensors : list SensorData) (line : bytes) :
  loopBody sensors line = sensors ++ loopBody [] line.
Proof.
  rewrite !loopBody_record.
  destruct (isEmpty _); [by rewrite app_nil_r|].
  destruct (recordParser _) as [[[[[name id] status] entity] valueStr]|];
    [|by rewrite app_nil_r].
  destruct (negb _); [by rewrite app_nil_r|].
  destruct (Strings.Contains _ _); [by rewrite app_nil_r|].
  destruct (_ && _); [by rewrite app_nil_r|done].
Qed.

Lemma fold_loopBody (lines : list bytes) (sensors : list SensorData) :
  fold_left loopBody lines sensors = sensors ++ (lines ≫= loopBody []).
Proof.
  revert sensors. induction lines as [|l lines IH]; intros sensors; simpl.
  - by rewrite app_nil_r.
  - rewrite IH, (loopBody_app sensors l). by rewrite <- app_assoc.
Qed.

(** The readings of a report are those of its lines, in order. *)
Lemma parseSensorData_lines (sdrData : bytes) :
  parseSensorData sdrData = Strings.Split sdrData newline ≫= loopBody [].
Proof. unfold parseSensorData. by rewrite fold_loopBody. Qed.

Lemma parseSensorData_app (a b : bytes) :
  parseSensorData (a ++ newline :: b) = parseSensorData a ++ parseSensorData b.
Proof. by rewrite !parseSensorData_lines, Split_app, bind_app. Qed.

Lemma parseSensorData_oneLine (line : bytes) :
  oneLine line = true -> parseSensorData line = loopBody [] line.
Proof.
  intros H. rewrite parseSensorData_lines, (Split_oneLine _ H).
  apply bind_singleton.
Qed.

(** A line on which the loop body appends nothing contributes nothing to
    the readings of a report, wherever it stands in it. *)
Lemma skipped_line (line : bytes) :
  oneLine line = true -> loopBody [] line = [] ->
  parseSensorData line = [] /\
  (forall after, parseSensorData (line ++ newline :: after) = parseSensorData after) /\
  (forall before, parseSensorData (before ++ newline :: line) = parseSensorData before) /\
  (forall before after,
      parseSensorData (before ++ newline :: line ++ newline :: after)
      = parseSensorData (before ++ newline :: after)).
Proof.
  intros Hline Hskip.
  assert (parseSensorData line = []) as Hnil
    by (by rewrite parseSensorData_oneLine).
  split; [done|]. split; [|split].
  - intros after. by rewrite parseSensorData_app, Hnil.
  - intros before. by rewrite parseSensorData_app, Hnil, app_nil_r.
  - intros before after. by rewrite !parseSensorData_app, Hnil.
Qed.

(** ** The Value Classifier *)

(** [parseValue] takes the unit of the first keyword that the trimmed text
    contains, provided the leading token is a number. *)
Lemma parseValue_spec (valueStr : bytes) :
  parseValue valueStr =
  match leadingFloat (Strings.TrimSpace valueStr),
        recognizedUnit (Strings.TrimSpace valueStr) with
  | Some v, Some (_, unit, quantity) => (v, unit, quantity)
  | _, _ => (float64_zero, [], [])
  end.
Proof.
  unfold parseValue, recognizedUnit, unitKeywords. cbn [find fst snd].
  destruct (leadingFloat _) as [v|];
    repeat (destruct (Strings.Contains _ _); try reflexivity).
Qed.

Lemma recognizedUnit_known (valueStr kw unit quantity : bytes) :
  recognizedUnit valueStr = Some (kw, unit, quantity) ->
  (kw, unit, quantity) ∈ unitKeywords /\ Strings.Contains valueStr kw = true.
Proof.
  unfold recognizedUnit. intros H. apply find_some in H as [Hin Hc].
  split; [by apply list_elem_of_In|done].
Qed.

(** The classifier returns a known unit with its quantity, or the
    unclassifiable signal. *)
Lemma parseValue_cases (valueStr : bytes) :
  parseValue valueStr = (float64_zero, [], []) \/
  ((parseValue valueStr).1.2, (parseValue valueStr).2)
    ∈ [(str "volts", str "voltage"); (str "celsius", str "temperature");
       (str "rpm", str "fan"); (str "watts", str "power");
       (str "amperes", str "current")].
Proof.
  unfold parseValue.
  repeat match goal with
         | |- context [if ?b then _ else _] => destruct b
         | |- context [match leadingFloat ?s with _ => _ end] =>
           destruct (leadingFloat s)
         end;
    cbn [fst snd]; first [by left | right; set_solver].
Qed.

(** ** Properties of the Report Parser and the Value Classifier *)

(** C1. End-to-end scenario 1: the report line
    ["CPU1 Temp      | 01h | ok  |  3.1 | 45 degrees C"] gives exactly one
    reading, with name "CPU1 Temp", id "01h", status "ok", value 45, unit
    "celsius" and quantity "temperature". *)
Theorem C1_cpu_temperature_line :
  parseSensorData (str "CPU1 Temp      | 01h | ok  |  3.1 | 45 degrees C")
  = [{| Name := str "CPU1 Temp"; ID := str "01h"; Status := str "ok";
        Entity := str "3.1"; Value := float64_of_Z 45;
        Unit := str "celsius"; Type_ := str "temperature" |}].
Proof. vm_compute. reflexivity. Qed.

Lemma malformed_line_skipped (line : bytes) :
  oneLine line = true ->
  fiveFieldShape (Strings.TrimSpace line) = false ->
  recordParser (Strings.TrimSpace line) = None /\
  forall sensors, loopBody sensors line = sensors.
Proof.
  intros Hline Hshape.
  assert (recordParser (Strings.TrimSpace line) = None) as Hrec
    by (by apply recordParser_None; [apply TrimSpace_oneLine|]).
  split; [done|].
  intros sensors. rewrite loopBody_record, Hrec. by destruct (isEmpty _).
Qed.

(** Only the lines with the five-field shape count in a report. *)
Lemma parseSensorData_shaped_lines (sdrData : bytes) :
  parseSensorData sdrData
  = filter (fun l => fiveFieldShape (Strings.TrimSpace l) = true)
           (Strings.Split sdrData newline) ≫= loopBody [].
Proof.
  rewrite parseSensorData_lines.
  pose proof (Split_lines sdrData) as Hlines.
  induction Hlines as [|l ls Hl _ IH]; [done|].
  rewrite filter_cons. csimpl.
  destruct (fiveFieldShape (Strings.TrimSpace l)) eqn:Hshape.
  - rewrite decide_True by done. csimpl. by rewrite IH.
  - rewrite decide_False by done. csimpl.
    destruct (malformed_line_skipped l Hl Hshape) as [_ Hskip].
    by rewrite (Hskip []), IH.
Qed.

(** The record of a line with the five-field shape: its columns,
    trimmed. *)
Lemma recordParser_shaped (line c1 c2 c3 c4 c5 : bytes) :
  oneLine line = true ->
  fiveFieldShape (Strings.TrimSpace line) = true ->
  columns (Strings.TrimSpace line) = Some (c1, c2, c3, c4, c5) ->
  recordParser (Strings.TrimSpace line)
  = Some (Strings.TrimSpace c1, Strings.TrimSpace c2, Strings.TrimSpace c3,
          Strings.TrimSpace c4, Strings.TrimSpace c5).
Proof.
  intros Hline Hshape Hcols.
  rewrite recordParser_columns by (by apply TrimSpace_oneLine).
  by rewrite Hshape, Hcols.
Qed.

(** C4. A line of the report that, once trimmed, does not have the
    five-field pipe-delimited shape is rejected by the Record Parser and
    contributes no reading: the loop body leaves the readings as they are,
    and the report parses as it does without the line.  The readings of a
    report are those of its lines that have the shape. *)
Theorem C4_malformed_line_rejected :
  (forall line : bytes,
      oneLine line = true ->
      fiveFieldShape (Strings.TrimSpace line) = false ->
      recordParser (Strings.TrimSpace line) = None /\
      (forall sensors, loopBody sensors line = sensors) /\
      parseSensorData line = [] /\
      (forall before after,
          parseSensorData (before ++ newline :: line ++ newline :: after)
          = parseSensorData (before ++ newline :: after))) /\
  (forall sdrData : bytes,
      parseSensorData sdrData
      = filter (fun l => fiveFieldShape (Strings.TrimSpace l) = true)
               (Strings.Split sdrData newline) ≫= loopBody []).
Proof.
  split; [|apply parseSensorData_shaped_lines].
  intros line Hline Hshape.
  destruct (malformed_line_skipped line Hline Hshape) as [Hrec Hskip].
  destruct (skipped_line line Hline (Hskip [])) as (Hnil & _ & _ & Hmid).
  done.
Qed.

Lemma C4_malformed_line_rejected_witness :
  oneLine (str "  Sensor | 01h | ok ") = true /\
  fiveFieldShape (Strings.TrimSpace (str "  Sensor | 01h | ok ")) = false /\
  recordParser (Strings.TrimSpace (str "  Sensor | 01h | ok ")) = None /\
  parseSensorData (str "  Sensor | 01h | ok ") = [].
Proof.
  split; [reflexivity|]. split; [reflexivity|].
  destruct C4_malformed_line_rejected as [H _].
  destruct (H (str "  Sensor | 01h | ok ") eq_refl eq_refl)
    as (Hrec & _ & Hnil & _).
  split; [exact Hrec|exact Hnil].
Defined.

(** Column five is the remainder of the line: a bar in it does not spoil
    the shape. *)
Example bar_in_last_column :
  fiveFieldShape (str "PSU | 60h | ok | 10.1 | 5 Volts | nominal") = true /\
  columns (str "PSU | 60h | ok | 10.1 | 5 Volts | nominal")
  = Some (str "PSU ", str " 60h ", str " ok ", str " 10.1 ",
          str " 5 Volts | nominal") /\
  parseSensorData (str "PSU | 60h | ok | 10.1 | 5 Volts | nominal")
  = [{| Name := str "PSU"; ID := str "60h"; Status := str "ok";
        Entity := str "10.1"; Value := float64_of_Z 5;
        Unit := str "volts"; Type_ := str "voltage" |}].
Proof. vm_compute. repeat split; reflexivity. Qed.

(** C5. A line with the five-field shape whose status field, the third
    column, is not exactly "ok" once trimmed gives no reading, whatever
    its value field holds. *)
Theorem C5_status_not_ok_dropped (line c1 c2 c3 c4 c5 : bytes) :
  oneLine line = true ->
  fiveFieldShape (Strings.TrimSpace line) = true ->
  columns (Strings.TrimSpace line) = Some (c1, c2, c3, c4, c5) ->
  Strings.TrimSpace c3 <> str "ok" ->
  (forall sensors, loopBody sensors line = sensors) /\
  parseSensorData line = [] /\
  (forall before after,
      parseSensorData (before ++ newline :: line ++ newline :: after)
      = parseSensorData (before ++ newline :: after)).
Proof.
  intros Hline Hshape Hcols Hstatus.
  pose proof (recordParser_shaped _ _ _ _ _ _ Hline Hshape Hcols) as Hrec.
  assert (forall sensors, loopBody sensors line = sensors) as Hskip.
  { intros sensors. rewrite loopBody_record, Hrec.
    destruct (isEmpty _); [done|].
    unfold bytes_eqb. by rewrite bool_decide_eq_false_2. }
  destruct (skipped_line line Hline (Hskip [])) as (Hnil & _ & _ & Hmid).
  done.
Qed.

Lemma C5_status_not_ok_dropped_witness :
  fiveFieldShape (Strings.TrimSpace (str "Fan2 | 05h | ns  | 7.2 | 850 RPM"))
  = true /\
  columns (Strings.TrimSpace (str "Fan2 | 05h | ns  | 7.2 | 850 RPM"))
  = Some (str "Fan2 ", str " 05h ", str " ns  ", str " 7.2 ", str " 850 RPM")
  /\
  Strings.TrimSpace (str " ns  ") <> str "ok" /\
  parseSensorData (str "Fan2 | 05h | ns  | 7.2 | 850 RPM") = [].
Proof.
  assert (Strings.TrimSpace (str " ns  ") <> str "ok") as Hns
    by (vm_compute; discriminate).
  split; [reflexivity|]. split; [reflexivity|]. split; [exact Hns|].
  destruct (C5_status_not_ok_dropped
              (str "Fan2 | 05h | ns  | 7.2 | 850 RPM")
              (str "Fan2 ") (str " 05h ") (str " ns  ") (str " 7.2 ")
              (str " 850 RPM") eq_refl eq_refl eq_refl Hns) as (_ & Hnil & _).
  exact Hnil.
Defined.

(** C6. A line whose value field, the fifth column, contains the marker
    "No Reading" gives no reading, also when the field contains a unit
    keyword; the report line
    ["Fan1           | 04h | ok  |  7.1 | No Reading"] gives none. *)
Theorem C6_no_reading_dropped :
  (forall line c1 c2 c3 c4 c5 : bytes,
      oneLine line = true ->
      fiveFieldShape (Strings.TrimSpace line) = true ->
      columns (Strings.TrimSpace line) = Some (c1, c2, c3, c4, c5) ->
      Strings.Contains (Strings.TrimSpace c5) (str "No Reading") = true ->
      (forall sensors, loopBody sensors line = sensors) /\
      parseSensorData line = [] /\
      (forall before after,
          parseSensorData (before ++ newline :: line ++ newline :: after)
          = parseSensorData (before ++ newline :: after))) /\
  parseSensorData (str "Fan1           | 04h | ok  |  7.1 | No Reading") = [].
Proof.
  split; [|vm_compute; reflexivity].
  intros line c1 c2 c3 c4 c5 Hline Hshape Hcols Hmarker.
  pose proof (recordParser_shaped _ _ _ _ _ _ Hline Hshape Hcols) as Hrec.
  assert (forall sensors, loopBody sensors line = sensors) as Hskip.
  { intros sensors. rewrite loopBody_record, Hrec, Hmarker.
    destruct (isEmpty _); [done|]. by destruct (negb _). }
  destruct (skipped_line line Hline (Hskip [])) as (Hnil & _ & _ & Hmid).
  done.
Qed.

Lemma C6_no_reading_dropped_witness :
  let line := str "Fan3 | 06h | ok | 7.3 | No Reading (0 RPM)" in
  fiveFieldShape (Strings.TrimSpace line) = true /\
  columns (Strings.TrimSpace line)
  = Some (str "Fan3 ", str " 06h ", str " ok ", str " 7.3 ",
          str " No Reading (0 RPM)") /\
  Strings.Contains (Strings.TrimSpace (str " No Reading (0 RPM)"))
    (str "No Reading") = true /\
  Strings.Contains (Strings.TrimSpace (str " No Reading (0 RPM)"))
    (str "RPM") = true /\
  parseSensorData line = [].
Proof.
  intros line.
  split; [reflexivity|]. split; [reflexivity|]. split; [reflexivity|].
  split; [reflexivity|].
  destruct C6_no_reading_dropped as [H _].
  destruct (H line (str "Fan3 ") (str " 06h ") (str " ok ") (str " 7.3 ")
              (str " No Reading (0 RPM)") eq_refl eq_refl eq_refl eq_refl)
    as (_ & Hnil & _).
  exact Hnil.
Defined.

(** The binary64 number that 12.24 denotes: it lies within half a unit in
    the last place of 1224/100, and is the quotient of 1224 by 100. *)
Example float64_12_24 :
  SFdiv prec emax (float64_of_Z 1224) (float64_of_Z 100)
  = S754_finite false 6890507429876859 (-49)
  /\ 2 * Z.abs (100 * 6890507429876859 - 1224 * 2 ^ 49) <= 100.
Proof. split; [vm_compute; reflexivity|vm_compute; discriminate]. Qed.

(** C8. The Value Classifier maps "12.240 Volts" to (12.24, "volts",
    "voltage") and "850 RPM" to (850, "rpm", "fan"); it maps "N/A" to the
    unclassifiable signal, value zero with empty unit, on which the Report
    Parser drops the line. *)
Theorem C8_value_classifier_examples :
  parseValue (str "12.240 Volts")
  = (SFdiv prec emax (float64_of_Z 1224) (float64_of_Z 100),
     str "volts", str "voltage") /\
  parseValue (str "850 RPM") = (float64_of_Z 850, str "rpm", str "fan") /\
  parseValue (str "N/A") = (float64_zero, [], []) /\
  recordParser (str "PSU Status | 60h | ok | 10.1 | N/A")
  = Some (str "PSU Status", str "60h", str "ok", str "10.1", str "N/A") /\
  parseSensorData (str "PSU Status | 60h | ok | 10.1 | N/A") = [].
Proof. vm_compute. repeat split; reflexivity. Qed.

Lemma known_unit_nonempty (unit quantity : bytes) :
  (unit, quantity)
    ∈ [(str "volts", str "voltage"); (str "celsius", str "temperature");
       (str "rpm", str "fan"); (str "watts", str "power");
       (str "amperes", str "current")] ->
  unit <> [] /\ quantity <> [].
Proof.
  rewrite !elem_of_cons, elem_of_nil.
  intros [[= -> ->]|[[= -> ->]|[[= -> ->]|[[= -> ->]|[[= -> ->]|[]]]]]];
    by split.
Qed.

Lemma loopBody_wellClassified (sensors : list SensorData) (line : bytes) :
  Forall wellClassified sensors ->
  Forall wellClassified (loopBody sensors line).
Proof.
  intros Hs. rewrite loopBody_record.
  destruct (isEmpty _); [done|].
  destruct (recordParser _) as [[[[[name id] status] entity] valueStr]|];
    [|done].
  destruct (negb _); [done|]. destruct (Strings.Contains _ _); [done|].
  destruct (_ && _) eqn:Hdrop; [done|].
  apply Forall_app. split; [done|]. apply Forall_singleton.
  destruct (parseValue_cases valueStr) as [Hz|Hk].
  - rewrite Hz in Hdrop. discriminate Hdrop.
  - destruct (known_unit_nonempty _ _ Hk) as [Hu Hq].
    unfold wellClassified; cbn [Unit Type_ Value].
    split; [done|]. split; [done|]. split; [done|]. by intros [_ ?].
Qed.

(** C9. Every reading the Report Parser returns has a unit among volts,
    celsius, rpm, watts, amperes, with the matching quantity among voltage,
    temperature, fan, power, current; none has an empty unit or quantity,
    so none is the zero-valued unclassified record. *)
Theorem C9_readings_are_classified (sdrData : bytes) :
  Forall wellClassified (parseSensorData sdrData).
Proof.
  unfold parseSensorData.
  generalize (Strings.Split sdrData newline).
  assert (Forall wellClassified []) as Hnil by constructor.
  revert Hnil. generalize (@nil SensorData).
  intros sensors Hs lines. revert sensors Hs.
  induction lines as [|l lines IH]; intros sensors Hs; simpl; [done|].
  by apply IH, loopBody_wellClassified.
Qed.

(** C10. A reading of magnitude zero is kept.  Take a five-field line
    with status "ok" whose value field, the fifth column trimmed, has no
    "No Reading" marker.  The line is dropped at the classification step
    exactly when the classifier returns value zero together with the empty
    unit.  When the leading token of the value field parses to zero and
    the field contains a unit keyword, the reading is emitted with that
    value and the unit of the first such keyword in priority order. *)
Theorem C10_zero_reading_kept (line c1 c2 c3 c4 c5 : bytes)
    (sensors : list SensorData) :
  oneLine line = true ->
  fiveFieldShape (Strings.TrimSpace line) = true ->
  columns (Strings.TrimSpace line) = Some (c1, c2, c3, c4, c5) ->
  Strings.TrimSpace c3 = str "ok" ->
  Strings.Contains (Strings.TrimSpace c5) (str "No Reading") = false ->
  let valueStr := Strings.TrimSpace c5 in
  (loopBody sensors line = sensors
   <-> float64_eqb (parseValue valueStr).1.1 float64_zero = true
       /\ (parseValue valueStr).1.2 = []) /\
  (forall (v : float64) (kw unit quantity : bytes),
      leadingFloat valueStr = Some v ->
      float64_eqb v float64_zero = true ->
      recognizedUnit valueStr = Some (kw, unit, quantity) ->
      unit <> [] /\
      loopBody sensors line
      = sensors ++ [{| Name := Strings.TrimSpace c1;
                       ID := Strings.TrimSpace c2; Status := str "ok";
                       Entity := Strings.TrimSpace c4; Value := v;
                       Unit := unit; Type_ := quantity |}]).
Proof.
  intros Hline Hshape Hcols Hok Hmarker valueStr.
  pose proof (recordParser_shaped _ _ _ _ _ _ Hline Hshape Hcols) as Hrec.
  assert (isEmpty (Strings.TrimSpace line) = false) as Hne.
  { destruct (Strings.TrimSpace line); [|done]. discriminate Hcols. }
  rewrite loopBody_record, Hrec, Hne, Hok, Hmarker.
  assert (bytes_eqb (str "ok") (str "ok") = true) as -> by reflexivity.
  cbn [negb]. fold valueStr. split.
  - destruct (float64_eqb _ _) eqn:Hz; cbn [andb].
    + unfold bytes_eqb. case_bool_decide as Hu.
      * by split.
      * split; [|by intros [_ ?]]. intros Heq.
        apply (f_equal length) in Heq. rewrite length_app in Heq.
        simpl in Heq. lia.
    + split; [|by intros [? _]]. intros Heq.
      apply (f_equal length) in Heq. rewrite length_app in Heq.
      simpl in Heq. lia.
  - intros v kw unit quantity Hv Hz Hunit.
    rewrite parseValue_spec. unfold valueStr in *.
    rewrite TrimSpace_idempotent, Hv, Hunit. cbn [fst snd].
    apply recognizedUnit_known in Hunit as [Hin _].
    assert (unit <> []) as Hu.
    { unfold unitKeywords in Hin. rewrite !elem_of_cons, elem_of_nil in Hin.
      destruct Hin as [[= -> -> ->]|[[= -> -> ->]|[[= -> -> ->]|
                       [[= -> -> ->]|[[= -> -> ->]|[]]]]]]; done. }
    split; [done|]. rewrite Hz. cbn [andb].
    unfold bytes_eqb. by rewrite bool_decide_eq_false_2.
Qed.

Lemma C10_zero_reading_kept_witness :
  let line := str "PS1 Power | 70h | ok | 10.1 | 0 Watts" in
  fiveFieldShape (Strings.TrimSpace line) = true /\
  columns (Strings.TrimSpace line)
  = Some (str "PS1 Power ", str " 70h ", str " ok ", str " 10.1 ",
          str " 0 Watts") /\
  Strings.TrimSpace (str " 0 Watts") = str "0 Watts" /\
  leadingFloat (str "0 Watts") = Some float64_zero /\
  recognizedUnit (str "0 Watts") = Some (str "Watts", str "watts", str "power")
  /\
  loopBody [] line
  = [{| Name := str "PS1 Power"; ID := str "70h"; Status := str "ok";
        Entity := str "10.1"; Value := float64_zero; Unit := str "watts";
        Type_ := str "power" |}].
Proof.
  intros line. do 5 (split; [reflexivity|]).
  destruct (C10_zero_reading_kept line
              (str "PS1 Power ") (str " 70h ") (str " ok ") (str " 10.1 ")
              (str " 0 Watts") [] eq_refl eq_refl eq_refl eq_refl eq_refl)
    as [_ H].
  destruct (H float64_zero (str "Watts") (str "watts") (str "power")
              eq_refl eq_refl eq_refl) as [_ Hemit].
  exact Hemit.
Defined.

(** ** The metric registry *)

Lemma registry_eq (r1 r2 : registry) :
  (forall q, gauge q r1 = gauge q r2) -> r1 = r2.
Proof.
  intros H. destruct r1, r2.
  pose proof (H Voltage). pose proof (H Temperature). pose proof (H Fan).
  pose proof (H Power). pose proof (H Current). simpl in *. congruence.
Qed.

Lemma gauge_updateMetric (q : quantity) (host : bytes) (reg : registry)
    (sensor : SensorData) :
  gauge q (updateMetric host reg sensor) = writes q host (gauge q reg) sensor.
Proof.
  unfold updateMetric, writes, sensorQuantity.
  repeat (destruct (bytes_eqb (Type_ sensor) _));
    destruct q; cbn [gauge voltageGauge temperatureGauge fanGauge powerGauge
                       currentGauge];
    case_decide; congruence.
Qed.

Lemma gauge_updateMetrics (q : quantity) (host : bytes)
    (sensors : list SensorData) (reg : registry) :
  gauge q (updateMetrics sensors host reg)
  = fold_left (writes q host) sensors (gauge q reg).
Proof.
  unfold updateMetrics. revert reg.
  induction sensors as [|s sensors IH]; intros reg; simpl; [done|].
  by rewrite IH, gauge_updateMetric.
Qed.

Lemma lookup_writes (q : quantity) (host : bytes) (k : labels) (g : GaugeVec)
    (sensor : SensorData) :
  writes q host g sensor !! k = written q host k (g !! k) sensor.
Proof.
  unfold writes, written, setGauge.
  destruct (decide (sensorQuantity sensor = Some q)) as [Hq|Hq].
  - destruct (decide ((Name sensor, ID sensor, host) = k)) as [<-|Hk].
    + rewrite lookup_insert_eq. by rewrite decide_True.
    + rewrite lookup_insert_ne by done. rewrite decide_False; [done|].
      by intros [_ ?].
  - rewrite decide_False; [done|]. by intros [? _].
Qed.

Lemma lookup_fold_writes (q : quantity) (host : bytes) (k : labels)
    (sensors : list SensorData) (g : GaugeVec) :
  fold_left (writes q host) sensors g !! k
  = fold_left (written q host k) sensors (g !! k).
Proof.
  revert g. induction sensors as [|s sensors IH]; intros g; simpl; [done|].
  by rewrite IH, lookup_writes.
Qed.

(** The last matching reading wins; without one the old value stays. *)
Lemma fold_written_last (q : quantity) (host : bytes) (k : labels)
    (sensors : list SensorData) (old : option float64) :
  fold_left (written q host k) sensors old
  = match fold_left (written q host k) sensors None with
    | Some v => Some v
    | None => old
    end.
Proof.
  revert old. induction sensors as [|s sensors IH]; intros old; simpl; [done|].
  unfold written at 2 4. case_decide as Hs.
  - rewrite (IH (Some (Value s))).
    by destruct (fold_left (written q host k) sensors None).
  - apply IH.
Qed.

Lemma updateMetrics_idempotent (sensors : list SensorData) (host : bytes)
    (reg : registry) :
  updateMetrics sensors host (updateMetrics sensors host reg)
  = updateMetrics sensors host reg.
Proof.
  apply registry_eq. intros q. rewrite !gauge_updateMetrics.
  apply map_eq. intros k. rewrite !lookup_fold_writes.
  rewrite (fold_written_last q host k sensors (fold_left _ _ _)).
  by destruct (fold_left (written q host k) sensors None) eqn:E;
    [rewrite (fold_written_last q host k sensors (gauge q reg !! k)), E|].
Qed.

(** C3. Feeding the same report text through the pipeline twice in
    succession leaves the registry as feeding it once does, from every
    registry state: a set operation overwrites the value under its label
    triple, whatever was there, and keeps nothing of the old value. *)
Theorem C3_pipeline_idempotent (config : IPMIConfig) (report : bytes)
    (reg : registry) :
  collectMetrics config (Output report)
    (collectMetrics config (Output report) reg)
  = collectMetrics config (Output report) reg
  /\ updateMetrics (parseSensorData report) (Host config)
       (updateMetrics (parseSensorData report) (Host config) reg)
     = updateMetrics (parseSensorData report) (Host config) reg
  /\ (forall (g : GaugeVec) (name id host : bytes) (old v : float64),
         setGauge (setGauge g name id host old) name id host v
         = setGauge g name id host v
         /\ setGauge g name id host v !! (name, id, host) = Some v
         /\ forall k, k <> (name, id, host) ->
                      setGauge g name id host v !! k = g !! k).
Proof.
  split; [apply updateMetrics_idempotent|].
  split; [apply updateMetrics_idempotent|].
  intros g name id host old v. unfold setGauge.
  split; [apply insert_insert_eq|].
  split; [apply lookup_insert_eq|].
  intros k Hk. by apply lookup_insert_ne.
Qed.

(** C7. End-to-end scenario 3.  For a report of three lines, a valid
    voltage line, a malformed line and a valid temperature line, one
    collection pass sets two metric points: the voltage point and the
    temperature point labelled with the name and id of their lines and with
    the host.  Every other point of every collection keeps its value. *)
Theorem C7_two_points_updated (config : IPMIConfig) (reg : registry)
    (l1 l2 l3 : bytes) (r1 r3 : SensorData) :
  oneLine l1 = true -> oneLine l2 = true -> oneLine l3 = true ->
  loopBody [] l1 = [r1] -> Type_ r1 = str "voltage" ->
  fiveFieldShape (Strings.TrimSpace l2) = false ->
  loopBody [] l3 = [r3] -> Type_ r3 = str "temperature" ->
  let reg' :=
    collectMetrics config (Output (l1 ++ newline :: l2 ++ newline :: l3)) reg in
  let k1 := (Name r1, ID r1, Host config) in
  let k3 := (Name r3, ID r3, Host config) in
  reg' = {| voltageGauge := <[k1 := Value r1]> (voltageGauge reg);
            temperatureGauge := <[k3 := Value r3]> (temperatureGauge reg);
            fanGauge := fanGauge reg; powerGauge := powerGauge reg;
            currentGauge := currentGauge reg |}
  /\ voltageGauge reg' !! k1 = Some (Value r1)
  /\ temperatureGauge reg' !! k3 = Some (Value r3)
  /\ (forall q k, (q, k) <> (Voltage, k1) -> (q, k) <> (Temperature, k3) ->
                  gauge q reg' !! k = gauge q reg !! k).
Proof.
  intros H1 H2 H3 Hr1 Hv Hbad Hr3 Ht reg' k1 k3.
  assert (parseSensorData (l1 ++ newline :: l2 ++ newline :: l3) = [r1; r3])
    as Hparse.
  { rewrite !parseSensorData_app, !parseSensorData_oneLine by done.
    destruct (malformed_line_skipped l2 H2 Hbad) as [_ Hskip].
    by rewrite Hr1, Hr3, (Hskip []). }
  assert (reg' = {| voltageGauge := <[k1 := Value r1]> (voltageGauge reg);
            temperatureGauge := <[k3 := Value r3]> (temperatureGauge reg);
            fanGauge := fanGauge reg; powerGauge := powerGauge reg;
            currentGauge := currentGauge reg |}) as Hreg.
  { subst reg'. unfold collectMetrics. rewrite Hparse.
    unfold updateMetrics. cbn [fold_left]. unfold updateMetric.
    rewrite Hv, Ht. reflexivity. }
  split; [done|]. rewrite Hreg. cbn [voltageGauge temperatureGauge].
  split; [apply lookup_insert_eq|]. split; [apply lookup_insert_eq|].
  intros q k Hk1 Hk3.
  destruct q; cbn [gauge voltageGauge temperatureGauge fanGauge powerGauge
                     currentGauge]; try done.
  - apply lookup_insert_ne. congruence.
  - apply lookup_insert_ne. congruence.
Qed.

Lemma C7_two_points_updated_witness :
  let config := {| Host := str "10.0.0.7"; Username := str "admin";
                   Password := str "secret"; Port := 623 |} in
  let l1 := str "12V Rail     | 30h | ok  |  7.1 | 12.240 Volts" in
  let l2 := str "-- end of voltage block --" in
  let l3 := str "CPU1 Temp      | 01h | ok  |  3.1 | 45 degrees C" in
  let reg' :=
    collectMetrics config (Output (l1 ++ newline :: l2 ++ newline :: l3))
      emptyRegistry in
  fiveFieldShape (Strings.TrimSpace l2) = false /\
  voltageGauge reg' !! (str "12V Rail", str "30h", str "10.0.0.7")
  = Some (SFdiv prec emax (float64_of_Z 1224) (float64_of_Z 100)) /\
  temperatureGauge reg' !! (str "CPU1 Temp", str "01h", str "10.0.0.7")
  = Some (float64_of_Z 45) /\
  (forall q k,
      (q, k) <> (Voltage, (str "12V Rail", str "30h", str "10.0.0.7")) ->
      (q, k) <> (Temperature, (str "CPU1 Temp", str "01h", str "10.0.0.7")) ->
      gauge q reg' !! k = None).
Proof.
  intros config l1 l2 l3 reg'.
  pose (r1 := {| Name := str "12V Rail"; ID := str "30h"; Status := str "ok";
                 Entity := str "7.1";
                 Value := SFdiv prec emax (float64_of_Z 1224) (float64_of_Z 100);
                 Unit := str "volts"; Type_ := str "voltage" |}).
  pose (r3 := {| Name := str "CPU1 Temp"; ID := str "01h"; Status := str "ok";
                 Entity := str "3.1"; Value := float64_of_Z 45;
                 Unit := str "celsius"; Type_ := str "temperature" |}).
  assert (loopBody [] l1 = [r1]) as Hr1 by (vm_compute; reflexivity).
  assert (loopBody [] l3 = [r3]) as Hr3 by (vm_compute; reflexivity).
  assert (fiveFieldShape (Strings.TrimSpace l2) = false) as Hbad
    by reflexivity.
  destruct (C7_two_points_updated config emptyRegistry l1 l2 l3 r1 r3
              eq_refl eq_refl eq_refl Hr1 eq_refl Hbad Hr3 eq_refl)
    as (_ & Hv & Ht & Hother).
  split; [exact Hbad|]. split; [exact Hv|]. split; [exact Ht|].
  intros q k Hk1 Hk3. etransitivity; [exact (Hother q k Hk1 Hk3)|].
  destruct q; reflexivity.
Defined.

(** ** The collection scheduler *)

Lemma count_snoc (p : event -> bool) (tr : list event) (e : event) :
  count p (tr ++ [e]) = (count p tr + if p e then 1 else 0)%nat.
Proof.
  unfold count. rewrite List.filter_app, length_app. simpl.
  by destruct (p e).
Qed.

Lemma initial_inv (reg : registry) : schedInv (initial reg).
Proof. unfold schedInv, count. simpl. repeat split; lia. Qed.

Lemma step_inv (config : IPMIConfig) (a : action) (st st' : sched) :
  step config a st = Some st' -> schedInv st -> schedInv st'.
Proof.
  unfold schedInv, step. intros Hstep (Hc & Hg & Ht & Hn).
  destruct a as [res|res|].
  - destruct (callerAt st) eqn:Hpc; simplify_eq; sched_step count_snoc.
    + repeat split; (done || lia).
    + rewrite Hn in Hg. repeat split; (done || lia).
    + repeat split; (done || lia).
  - destruct (goroutineAt st) eqn:Hpc; simplify_eq.
    + sched_step count_snoc. destruct (callerAt st); repeat split; (done || lia).
    + destruct (tickPending st) eqn:Hp; simplify_eq. sched_step count_snoc.
      destruct (callerAt st); repeat split; (done || lia).
  - destruct (tickerOn st); simplify_eq. sched_step count_snoc.
    destruct (callerAt st), (goroutineAt st), (tickPending st);
      repeat split; (done || lia).
Qed.

Lemma run_inv (config : IPMIConfig) (acts : list action) (st st' : sched) :
  runActions config acts st = Some st' -> schedInv st -> schedInv st'.
Proof.
  revert st. induction acts as [|a acts IH]; intros st; simpl.
  - by intros [= ->].
  - destruct (step config a st) as [st1|] eqn:Hstep; [|done].
    intros Hrun Hinv. apply (IH st1 Hrun). by apply (step_inv config a st).
Qed.

Lemma step_trace (config : IPMIConfig) (a : action) (st st' : sched) :
  step config a st = Some st' -> exists evs, trace st' = trace st ++ evs.
Proof.
  unfold step. intros Hstep.
  destruct a as [res|res|];
    repeat match type of Hstep with
           | context [match ?x with _ => _ end] => destruct x
           end;
    simplify_eq; cbn [trace]; eauto using app_nil_r.
Qed.

Lemma run_trace (config : IPMIConfig) (acts : list action) (st st' : sched) :
  runActions config acts st = Some st' -> exists evs, trace st' = trace st ++ evs.
Proof.
  revert st. induction acts as [|a acts IH]; intros st; simpl.
  - intros [= ->]. exists []. by rewrite app_nil_r.
  - destruct (step config a st) as [st1|] eqn:Hstep; [|done].
    intros Hrun. destruct (step_trace _ _ _ _ Hstep) as [evs1 H1].
    destruct (IH st1 Hrun) as [evs2 H2].
    exists (evs1 ++ evs2). by rewrite H2, H1, app_assoc.
Qed.

Lemma beforeFirstTick_all (tr : list event) :
  count isTimerFired tr = 0%nat -> beforeFirstTick tr = tr.
Proof.
  unfold count. induction tr as [|e tr IH]; simpl; [done|].
  destruct (isTimerFired e); simpl; [done|]. intros H. by rewrite IH.
Qed.

Lemma beforeFirstTick_cut (tr evs : list event) :
  count isTimerFired tr = 0%nat ->
  beforeFirstTick (tr ++ TimerFired :: evs) = tr.
Proof.
  unfold count. induction tr as [|e tr IH]; simpl; [done|].
  destruct (isTimerFired e); simpl; [done|]. intros H. by rewrite IH.
Qed.

Lemma run_returned (config : IPMIConfig) (acts : list action) (st st' : sched) :
  runActions config acts st = Some st' -> callerAt st = Returned ->
  callerAt st' = Returned.
Proof.
  revert st. induction acts as [|a acts IH]; intros st; simpl.
  - by intros [= ->].
  - destruct (step config a st) as [st1|] eqn:Hstep; [|done].
    intros Hrun Hret. apply (IH st1 Hrun).
    unfold step in Hstep. rewrite Hret in Hstep.
    destruct a as [res|res|]; [done| |].
    + destruct (goroutineAt st); [done| |]; simplify_eq; [done|].
      destruct (tickPending st); by simplify_eq.
    + destruct (tickerOn st); by simplify_eq.
Qed.

(** Once startup is over and no tick has fired, only the timer can move. *)
Lemma startupDone_blocked (config : IPMIConfig) (a : action) (st st' : sched) :
  schedInv st -> startupDone st = true ->
  count isTimerFired (trace st) = 0%nat ->
  step config a st = Some st' ->
  trace st' = trace st ++ [TimerFired].
Proof.
  intros (_ & _ & Ht & _) Hdone Hfired. unfold startupDone in Hdone.
  destruct (callerAt st) eqn:Hc; try done.
  destruct (goroutineAt st) eqn:Hg; try done.
  assert (tickPending st = false) as Hp by (destruct (tickPending st); [lia|done]).
  unfold step. rewrite Hc, Hg, Hp.
  destruct a as [res|res|]; [done|done|].
  destruct (tickerOn st); by intros [= <-].
Qed.

(** C2, as the code has it.  [startMetricsCollection] makes two calls of
    [collectMetrics] that wait for no tick: one by the caller, before it
    returns, and one as the first iteration of the goroutine.  In a run in
    which both are over when the timer first fires, two calls precede the
    first tick.  After that the goroutine makes one call for each tick it
    receives: when it waits again, the calls number two more than the
    ticks received. *)
Theorem C2_two_collections_then_one_per_tick (config : IPMIConfig)
    (reg : registry) (acts1 acts2 : list action) (st1 st : sched) :
  runActions config acts1 (initial reg) = Some st1 ->
  startupDone st1 = true ->
  count isTimerFired (trace st1) = 0%nat ->
  runActions config acts2 st1 = Some st ->
  collections (beforeFirstTick (trace st)) = 2%nat
  /\ count (isCollected Caller) (trace st) = 1%nat
  /\ count (isCollected Goroutine) (trace st)
     = (count isTickReceived (trace st)
        + match goroutineAt st with LoopWait => 1 | _ => 0 end)%nat
  /\ collections (trace st)
     = (count isTickReceived (trace st)
        + match goroutineAt st with LoopWait => 2 | _ => 1 end)%nat.
Proof.
  intros Hrun1 Hdone Hfired Hrun2.
  pose proof (run_inv _ _ _ _ Hrun1 (initial_inv reg)) as Hinv1.
  pose proof (run_inv _ _ _ _ Hrun2 Hinv1) as (Hc & Hg & _ & _).
  assert (callerAt st1 = Returned) as Hret1.
  { unfold startupDone in Hdone. by destruct (callerAt st1). }
  rewrite (run_returned _ _ _ _ Hrun2 Hret1) in Hc.
  split; [|split; [done|split; [done|]]].
  - assert (collections (trace st1) = 2%nat) as H2.
    { destruct Hinv1 as (Hc1 & Hg1 & Ht1 & _). unfold collections.
      unfold startupDone in Hdone. rewrite Hc1, Hg1.
      destruct (callerAt st1); try done.
      destruct (goroutineAt st1); try done. lia. }
    destruct acts2 as [|a acts2]; simpl in Hrun2.
    + injection Hrun2 as <-. by rewrite beforeFirstTick_all.
    + destruct (step config a st1) as [st2|] eqn:Hstep; [|done].
      pose proof (startupDone_blocked _ _ _ _ Hinv1 Hdone Hfired Hstep) as Htr.
      destruct (run_trace _ _ _ _ Hrun2) as [evs Hevs].
      rewrite Hevs, Htr, <- app_assoc. simpl.
      by rewrite beforeFirstTick_cut.
  - unfold collections. rewrite Hc, Hg. destruct (goroutineAt st); lia.
Qed.

Lemma C2_two_collections_then_one_per_tick_witness :
  let config := {| Host := str "10.0.0.7"; Username := str "admin";
                   Password := str "secret"; Port := 623 |} in
  let startup := [StepCaller (Output []); StepCaller (Output []);
                  StepGoroutine (Output []); StepCaller (Output [])] in
  let ticking := [TimerFires; StepGoroutine (Output []);
                  StepGoroutine (Output [])] in
  exists st1 st,
    runActions config startup (initial emptyRegistry) = Some st1 /\
    startupDone st1 = true /\
    count isTimerFired (trace st1) = 0%nat /\
    runActions config ticking st1 = Some st /\
    trace st = [Collected Goroutine; Collected Caller; TimerFired;
                TickReceived; Collected Goroutine] /\
    collections (beforeFirstTick (trace st)) = 2%nat /\
    collections (trace st) = 3%nat.
Proof.
  intros config startup ticking.
  eexists. eexists.
  split; [reflexivity|]. split; [reflexivity|]. split; [reflexivity|].
  split; [reflexivity|]. split; [reflexivity|].
  destruct (C2_two_collections_then_one_per_tick config emptyRegistry
              startup ticking _ _ eq_refl eq_refl eq_refl eq_refl)
    as (Hfirst & _ & _ & Hall).
  split; [exact Hfirst|exact Hall].
Defined.

(** C2, as the claim states it, fails: in the run in which the caller and
    the goroutine both finish their first collection and the timer then
    fires, two calls of [collectMetrics] precede the first tick, not one. *)
Lemma C2_once_before_first_tick_counterexample :
  let config := {| Host := str "10.0.0.7"; Username := str "admin";
                   Password := str "secret"; Port := 623 |} in
  let acts := [StepCaller (Output []); StepCaller (Output []);
               StepGoroutine (Output []); StepCaller (Output []);
               TimerFires] in
  (trace <$> runActions config acts (initial emptyRegistry)
   = Some [Collected Goroutine; Collected Caller; TimerFired]) /\
  ((fun st => collections (beforeFirstTick (trace st)))
     <$> runActions config acts (initial emptyRegistry)) = Some 2%nat /\
  ((fun st => collections (beforeFirstTick (trace st)))
     <$> runActions config acts (initial emptyRegistry)) <> Some 1%nat.
Proof.
  intros config acts.
  split; [reflexivity|]. split; [reflexivity|]. discriminate.
Qed.

(** ** Further properties of the Report Parser *)

(** X1. The Record Parser, read on the text.  On a line without a line
    break, the match against the pattern and the trimming of its five
    groups give the five columns of the line, cut at its first four bars
    and trimmed, when columns one, two, four and five are not empty and
    column three is a word with optional blanks around it; otherwise the
    line is rejected. *)
Theorem X1_record_parser_cuts_columns (line : bytes) :
  oneLine line = true ->
  recordParser line =
  match columns line with
  | Some (c1, c2, c3, c4, c5) =>
    if negb (isEmpty c1) && negb (isEmpty c2) && wordColumn c3
       && negb (isEmpty c4) && negb (isEmpty c5)
    then Some (Strings.TrimSpace c1, Strings.TrimSpace c2,
               Strings.TrimSpace c3, Strings.TrimSpace c4,
               Strings.TrimSpace c5)
    else None
  | None => None
  end.
Proof.
  intros Hline. rewrite (recordParser_columns line Hline).
  unfold fiveFieldShape.
  destruct (columns line) as [[[[[c1 c2] c3] c4] c5]|]; [|done].
  by destruct (_ && _).
Qed.

Lemma X1_record_parser_cuts_columns_witness :
  oneLine (str "Fan1 | 04h | ok | 7.1 | 850 RPM") = true /\
  recordParser (str "Fan1 | 04h | ok | 7.1 | 850 RPM")
  = Some (str "Fan1", str "04h", str "ok", str "7.1", str "850 RPM").
Proof.
  split; [reflexivity|].
  rewrite (X1_record_parser_cuts_columns
             (str "Fan1 | 04h | ok | 7.1 | 850 RPM") eq_refl).
  vm_compute. reflexivity.
Defined.

Lemma loopBody_lineReading (sensors : list SensorData) (line : bytes) :
  oneLine line = true ->
  loopBody sensors line = sensors ++ option_list (lineReading line).
Proof.
  intros Hline. rewrite loopBody_record.
  rewrite recordParser_columns by (by apply TrimSpace_oneLine).
  unfold lineReading.
  destruct (isEmpty (Strings.TrimSpace line)) eqn:Hempty.
  { destruct (Strings.TrimSpace line); [|done]. by rewrite app_nil_r. }
  destruct (fiveFieldShape _) eqn:Hshape; cbn [andb].
  2:{ destruct (columns _) as [[[[[c1 c2] c3] c4] c5]|]; by rewrite app_nil_r. }
  destruct (columns _) as [[[[[c1 c2] c3] c4] c5]|]; [|by rewrite app_nil_r].
  unfold bytes_eqb at 1 3. case_bool_decide as Hok; cbn [negb andb];
    [|by rewrite app_nil_r].
  destruct (Strings.Contains _ _); cbn [negb]; [by rewrite app_nil_r|].
  rewrite parseValue_spec, TrimSpace_idempotent.
  destruct (leadingFloat _) as [v|]; [|by rewrite app_nil_r].
  destruct (recognizedUnit _) as [[[kw unit] quantity]|] eqn:Hunit;
    [|by rewrite app_nil_r].
  cbn [fst snd]. apply recognizedUnit_known in Hunit as [Hin _].
  assert (unit <> []) as Hu.
  { unfold unitKeywords in Hin. rewrite !elem_of_cons, elem_of_nil in Hin.
    destruct Hin as [[= -> -> ->]|[[= -> -> ->]|[[= -> -> ->]|
                     [[= -> -> ->]|[[= -> -> ->]|[]]]]]]; done. }
  unfold bytes_eqb. rewrite (bool_decide_eq_false_2 _ Hu), andb_false_r.
  by rewrite Hok.
Qed.

Lemma parseSensorData_omap (sdrData : bytes) :
  parseSensorData sdrData
  = omap lineReading (Strings.Split sdrData newline).
Proof.
  rewrite parseSensorData_lines.
  pose proof (Split_lines sdrData) as Hlines.
  induction Hlines as [|l ls Hl _ IH]; [done|].
  csimpl. rewrite IH, (loopBody_lineReading [] l Hl). simpl.
  by destruct (lineReading l).
Qed.

(** X2. The readings of a report are the readings of its lines, in order,
    each read off the text of the line by [lineReading]; the loop body
    appends the reading of a line, if it has one, and nothing else. *)
Theorem X2_report_is_its_line_readings (sdrData : bytes) :
  parseSensorData sdrData
  = omap lineReading (Strings.Split sdrData newline)
  /\ forall (sensors : list SensorData) (line : bytes),
       oneLine line = true ->
       loopBody sensors line = sensors ++ option_list (lineReading line).
Proof.
  split; [apply parseSensorData_omap|].
  intros sensors line. apply loopBody_lineReading.
Qed.

(** X3. Parsing distributes over line breaks: the readings of two texts
    joined by a line break are those of the first followed by those of the
    second, and a line break at the start or at the end adds nothing. *)
Theorem X3_reports_concatenate (a b : bytes) :
  parseSensorData (a ++ newline :: b) = parseSensorData a ++ parseSensorData b
  /\ parseSensorData (a ++ [newline]) = parseSensorData a
  /\ parseSensorData (newline :: b) = parseSensorData b.
Proof.
  assert (parseSensorData [] = []) as Hnil by reflexivity.
  split; [apply parseSensorData_app|]. split.
  - by rewrite parseSensorData_app, Hnil, app_nil_r.
  - change (newline :: b) with ([] ++ newline :: b).
    by rewrite parseSensorData_app, Hnil.
Qed.

Lemma Split_length (s : bytes) (sep : ascii) :
  length (Strings.Split s sep)
  = S (length (List.filter (fun c => Ascii.eqb c sep) s)).
Proof.
  induction s as [|c s IH]; simpl; [done|].
  destruct (Ascii.eqb c sep); simpl; [by rewrite IH|].
  pose proof (Split_not_nil s sep).
  destruct (Strings.Split s sep); [done|]. simpl in *. lia.
Qed.

Lemma omap_length_le {A B : Type} (f : A -> option B) (l : list A) :
  (length (omap f l) <= length l)%nat.
Proof.
  induction l as [|x l IH]; csimpl; [lia|].
  destruct (f x); simpl; lia.
Qed.

(** X4. A report gives at most one reading per line: at most one more
    than it has line breaks. *)
Theorem X4_one_reading_per_line_at_most (sdrData : bytes) :
  (length (parseSensorData sdrData)
   <= S (length (List.filter (fun c => Ascii.eqb c newline) sdrData)))%nat.
Proof.
  rewrite parseSensorData_omap, <- Split_length. apply omap_length_le.
Qed.

(** *** Blank text and line endings *)

Lemma TrimSpace_blank (s : bytes) : blank s = true -> Strings.TrimSpace s = [].
Proof.
  intros Hs. pose proof (TrimSpace_padded s [] [] Hs eq_refl) as H.
  rewrite app_nil_r in H. by rewrite H.
Qed.

(** The loop body looks at a line through [strings.TrimSpace] only. *)
Lemma loopBody_TrimSpace (sensors : list SensorData) (l1 l2 : bytes) :
  Strings.TrimSpace l1 = Strings.TrimSpace l2 ->
  loopBody sensors l1 = loopBody sensors l2.
Proof. intros H. unfold loopBody. by rewrite H. Qed.

Lemma loopBody_padded (sensors : list SensorData) (a line b : bytes) :
  blank a = true -> blank b = true ->
  loopBody sensors (a ++ line ++ b) = loopBody sensors line.
Proof. intros Ha Hb. by apply loopBody_TrimSpace, TrimSpace_padded. Qed.

Lemma loopBody_blank (sensors : list SensorData) (line : bytes) :
  blank line = true -> loopBody sensors line = sensors.
Proof.
  intros H. unfold loopBody. by rewrite (TrimSpace_blank _ H).
Qed.

Lemma Split_blank (s : bytes) :
  blank s = true -> Forall (fun l => blank l = true) (Strings.Split s newline).
Proof.
  unfold blank. induction s as [|c s IH]; simpl; [by repeat constructor|].
  intros [Hc Hs]%andb_prop. specialize (IH Hs).
  destruct (Ascii.eqb c newline); [by constructor|].
  destruct (Strings.Split s newline) as [|piece rest].
  - constructor; [|done]. simpl. by rewrite Hc.
  - inversion IH; subst. constructor; [|done]. simpl. by rewrite Hc.
Qed.

(** What [Split] does when a byte is added at the end of the text. *)
Lemma Split_snoc (s : bytes) (x sep : ascii) :
  Ascii.eqb x sep = false ->
  exists init last,
    Strings.Split s sep = init ++ [last] /\
    Strings.Split (s ++ [x]) sep = init ++ [last ++ [x]].
Proof.
  intros Hx. induction s as [|c s (init & last & H1 & H2)]; simpl.
  - exists [], []. by rewrite Hx.
  - rewrite H1, H2. destruct (Ascii.eqb c sep).
    + by exists ([] :: init), last.
    + destruct init as [|i init]; simpl.
      * by exists [], (c :: last).
      * by exists ((c :: i) :: init), last.
Qed.

Lemma parseSensorData_snoc_blank (s : bytes) (x : ascii) :
  Regexp.member Regexp.PerlSpace x = true ->
  parseSensorData (s ++ [x]) = parseSensorData s.
Proof.
  intros Hx. destruct (Ascii.eqb x newline) eqn:Hnl.
  - apply Ascii.eqb_eq in Hnl as ->.
    assert (parseSensorData [] = []) as Hnil by reflexivity.
    by rewrite parseSensorData_app, Hnil, app_nil_r.
  - destruct (Split_snoc s x newline Hnl) as (init & last & H1 & H2).
    rewrite !parseSensorData_lines, H1, H2, !bind_app. f_equal.
    csimpl. f_equal.
    pose proof (loopBody_padded [] [] last [x]) as H. cbn [app] in H.
    apply H; [done|]. unfold blank. cbn [forallb]. by rewrite Hx.
Qed.

(** X5. Line endings and padding do not matter.  A carriage return in
    front of a line break, or at the end of the report, changes no reading;
    ASCII blanks around a line change nothing; a report of blanks and line
    breaks alone has no reading. *)
Theorem X5_line_endings_and_blanks (a b : bytes) :
  parseSensorData (a ++ carriageReturn :: newline :: b)
  = parseSensorData (a ++ newline :: b)
  /\ parseSensorData (a ++ [carriageReturn]) = parseSensorData a
  /\ (forall pad line pad' sensors,
         blank pad = true -> blank pad' = true ->
         loopBody sensors (pad ++ line ++ pad') = loopBody sensors line)
  /\ (forall s, blank s = true -> parseSensorData s = []).
Proof.
  assert (parseSensorData (a ++ [carriageReturn]) = parseSensorData a) as Hcr
    by (by apply parseSensorData_snoc_blank).
  split; [|split; [done|split]].
  - rewrite (cons_middle carriageReturn a), app_assoc.
    by rewrite !parseSensorData_app, Hcr.
  - intros pad line pad' sensors. apply loopBody_padded.
  - intros s Hs. rewrite parseSensorData_lines.
    pose proof (Split_blank s Hs) as Hlines.
    induction Hlines as [|l ls Hl _ IH]; [done|].
    csimpl. by rewrite IH, (loopBody_blank [] l Hl).
Qed.

(** *** The text fields of a reading *)

Lemma TrimSpace_forallb (p : ascii -> bool) (s : bytes) :
  forallb p s = true -> forallb p (Strings.TrimSpace s) = true.
Proof.
  intros H. unfold Strings.TrimSpace.
  by apply trimRight_forallb, trimLeft_forallb.
Qed.

Lemma columns_Some (line c1 c2 c3 c4 c5 : bytes) :
  columns line = Some (c1, c2, c3, c4, c5) ->
  line = c1 ++ bar :: c2 ++ bar :: c3 ++ bar :: c4 ++ bar :: c5 /\
  forallb (Regexp.member (Regexp.NotLit bar)) c1 = true /\
  forallb (Regexp.member (Regexp.NotLit bar)) c2 = true /\
  forallb (Regexp.member (Regexp.NotLit bar)) c3 = true /\
  forallb (Regexp.member (Regexp.NotLit bar)) c4 = true.
Proof.
  unfold columns.
  destruct (Cut line bar) as [[a1 r1]|] eqn:H1; [|done].
  destruct (Cut r1 bar) as [[a2 r2]|] eqn:H2; [|done].
  destruct (Cut r2 bar) as [[a3 r3]|] eqn:H3; [|done].
  destruct (Cut r3 bar) as [[a4 r4]|] eqn:H4; [|done].
  intros [= <- <- <- <- <-].
  apply Cut_Some in H1 as [-> ?], H2 as [-> ?], H3 as [-> ?], H4 as [-> ?].
  done.
Qed.

Lemma ltrim_length (s : bytes) : (length (ltrim s) <= length s)%nat.
Proof.
  unfold ltrim. generalize (length s) at 1. intros fuel. revert s.
  induction fuel as [|f IH]; intros s; simpl; [lia|].
  destruct (Utf8.DecodeRune s) as [r [|k]]; [lia|].
  destruct (Utf8.IsSpace r); [|lia].
  specialize (IH (drop (S k) s)). rewrite length_drop in IH. lia.
Qed.

(** Text that starts a trimmed text starts with no white space either. *)
Lemma ltrim_prefix_fixed (x z : bytes) :
  ltrim (x ++ z) = x ++ z -> ltrim x = x.
Proof.
  intros Hxz. rewrite ltrim_step.
  destruct (Utf8.DecodeRune x) as [r [|k]] eqn:Hd; [done|].
  destruct (Utf8.IsSpace r) eqn:Hsp; [|done]. exfalso.
  pose proof (DecodeRune_prefix _ z _ _ Hd (IsSpace_not_RuneError _ Hsp)) as Hd'.
  rewrite ltrim_step, Hd', Hsp in Hxz.
  apply (f_equal length) in Hxz.
  pose proof (ltrim_length (drop (S k) (x ++ z))) as Hl.
  rewrite length_drop in Hl.
  destruct (DecodeRune_size (x ++ z)) as [Hle _]. rewrite Hd' in Hle.
  cbn [snd] in Hle. lia.
Qed.

Lemma DecodeLastRune_whole (s : bytes) (r : Z) :
  Utf8.DecodeLastRune s = (r, length s) -> Utf8.IsSpace r = true ->
  Utf8.DecodeRune s = (r, length s).
Proof.
  unfold Utf8.DecodeLastRune.
  destruct (length s) as [|last] eqn:Hlen; [by destruct s|].
  destruct (s !! last) as [c|] eqn:Hc; [|intros [= <-]; done].
  destruct (byteZ c <? Utf8.RuneSelf) eqn:Hasc.
  { intros [= <- <-] _. destruct s as [|c' [|? ?]]; try done.
    simpl in Hc. injection Hc as ->. unfold Utf8.DecodeRune. by rewrite Hasc. }
  set (start := match last with O => O | S p => _ end).
  destruct (Utf8.DecodeRune (drop start s)) as [r' size] eqn:Hd.
  destruct (Nat.eqb_spec (start + size) (S last)) as [He|He].
  - intros [= -> Hsize] _. assert (start = O) as Hs by lia.
    rewrite Hs, drop_0 in Hd. by rewrite Hd, Hsize.
  - intros [= <- _] Hsp. vm_compute in Hsp. discriminate.
Qed.

(** Text that trimming at the back empties starts with white space. *)
Lemma rtrim_nil_head (s : bytes) :
  s <> [] -> rtrim s = [] -> Utf8.IsSpace (Utf8.DecodeRune s).1 = true.
Proof.
  remember (length s) as n eqn:Hn.
  revert s Hn. induction n as [n IH] using lt_wf_ind. intros s -> Hne.
  rewrite rtrim_step.
  destruct (DecodeLastRune_size s) as [Hle Hge]. specialize (Hge Hne).
  destruct (Utf8.DecodeLastRune s) as [r [|k]] eqn:Hd; [done|].
  destruct (Utf8.IsSpace r) eqn:Hsp; [|done]. simpl in Hle, Hge.
  intros Hrest.
  destruct (decide (length s - S k = 0)%nat) as [Hz|Hz].
  - assert (S k = length s) as Hk by lia. rewrite Hk in Hd.
    by rewrite (DecodeLastRune_whole _ _ Hd Hsp).
  - assert (take (length s - S k) s <> []) as Hne'.
    { intros Ht. apply (f_equal length) in Ht. rewrite length_take in Ht.
      simpl in Ht. lia. }
    pose proof (IH (length (take (length s - S k) s))
                  ltac:(rewrite length_take; lia) _ eq_refl Hne' Hrest) as Hhead.
    destruct (Utf8.DecodeRune (take (length s - S k) s)) as [r' k'] eqn:Hd'.
    simpl in Hhead.
    pose proof (DecodeRune_prefix _ (drop (length s - S k) s) _ _ Hd'
                  (IsSpace_not_RuneError _ Hhead)) as Hfull.
    rewrite take_drop in Hfull. by rewrite Hfull.
Qed.

(** The first column of a trimmed line does not trim to nothing. *)
Lemma first_column_not_blank (s c z : bytes) :
  Strings.TrimSpace s = c ++ z -> c <> [] -> Strings.TrimSpace c <> [].
Proof.
  intros Hs Hc.
  assert (ltrim (c ++ z) = c ++ z) as Hfix.
  { rewrite <- Hs, TrimSpace_ltrim_rtrim.
    apply ltrim_rtrim, ltrim_fixed. }
  apply ltrim_prefix_fixed in Hfix.
  rewrite TrimSpace_ltrim_rtrim, Hfix. intros Hnil.
  pose proof (rtrim_nil_head c Hc Hnil) as Hhead.
  rewrite ltrim_step in Hfix.
  destruct (Utf8.DecodeRune c) as [r [|k]] eqn:Hd.
  - destruct (DecodeRune_size c) as [_ Hge]. specialize (Hge Hc).
    rewrite Hd in Hge. simpl in Hge. lia.
  - simpl in Hhead. rewrite Hhead in Hfix.
    apply (f_equal length) in Hfix.
    pose proof (ltrim_length (drop (S k) c)) as Hl.
    rewrite length_drop in Hl. destruct c; [done|]. simpl in *. lia.
Qed.

Lemma cleanField_column (line c : bytes) :
  oneLine c = true ->
  forallb (Regexp.member (Regexp.NotLit bar)) c = true ->
  cleanField (Strings.TrimSpace c).
Proof.
  intros Hl Hb. split; [apply TrimSpace_idempotent|].
  split; [by apply TrimSpace_forallb|]. by apply TrimSpace_oneLine.
Qed.

Lemma lineReading_clean (line : bytes) (x : SensorData) :
  oneLine line = true -> lineReading line = Some x -> cleanReading x.
Proof.
  intros Hline. unfold lineReading.
  destruct (columns _) as [[[[[c1 c2] c3] c4] c5]|] eqn:Hcols; [|done].
  destruct (fiveFieldShape _) eqn:Hshape; cbn [andb]; [|done].
  destruct (bytes_eqb _ _); cbn [andb]; [|done].
  destruct (negb _); [|done].
  destruct (leadingFloat _) as [v|]; [|done].
  destruct (recognizedUnit _) as [[[kw unit] quantity]|]; [|done].
  intros [= <-].
  pose proof (TrimSpace_oneLine line Hline) as Hl.
  pose proof Hcols as Hc.
  apply columns_Some in Hc as (Heq & Hb1 & Hb2 & Hb3 & Hb4).
  unfold fiveFieldShape in Hshape. rewrite Hcols in Hshape.
  apply andb_prop in Hshape as [[[[Hn1 _]%andb_prop _]%andb_prop _]%andb_prop _].
  apply negb_true_iff, isEmpty_false in Hn1.
  rewrite Heq in Hl. unfold oneLine in Hl.
  rewrite forallb_app in Hl. apply andb_prop in Hl as [Hl1 Hl].
  cbn [forallb] in Hl. apply andb_prop in Hl as [_ Hl].
  rewrite forallb_app in Hl. apply andb_prop in Hl as [Hl2 Hl].
  cbn [forallb] in Hl. apply andb_prop in Hl as [_ Hl].
  rewrite forallb_app in Hl. apply andb_prop in Hl as [Hl3 Hl].
  cbn [forallb] in Hl. apply andb_prop in Hl as [_ Hl].
  rewrite forallb_app in Hl. apply andb_prop in Hl as [Hl4 Hl].
  unfold cleanReading. cbn [Status Name ID Entity].
  split; [done|].
  split; [by apply (first_column_not_blank line c1 _ Heq)|].
  split; [by apply (cleanField_column line)|].
  split; by apply (cleanField_column line).
Qed.

(** X6. Every reading of a report has status "ok" and a name that is not
    empty; its name, id and entity are trimmed and hold neither a bar nor a
    line break. *)
Theorem X6_readings_have_clean_fields (sdrData : bytes) :
  Forall cleanReading (parseSensorData sdrData).
Proof.
  rewrite parseSensorData_omap. apply Forall_forall. intros x Hx.
  apply list_elem_of_omap in Hx as (l & Hl & Hr).
  pose proof (Split_lines sdrData) as Hlines.
  rewrite Forall_forall in Hlines.
  by apply (lineReading_clean l x (Hlines l Hl)).
Qed.

(** The id and the entity of a reading can be empty. *)
Example empty_id_and_entity :
  parseSensorData (str "Fan1 | | ok | | 850 RPM")
  = [{| Name := str "Fan1"; ID := []; Status := str "ok"; Entity := [];
        Value := float64_of_Z 850; Unit := str "rpm"; Type_ := str "fan" |}].
Proof. vm_compute. reflexivity. Qed.

(** ** Further properties of the Value Classifier *)

Lemma parseValue_TrimSpace (valueStr : bytes) :
  parseValue (Strings.TrimSpace valueStr) = parseValue valueStr.
Proof. unfold parseValue. by rewrite TrimSpace_idempotent. Qed.

(** X7. The Value Classifier takes the unit and quantity of the first
    keyword, in the order Volts, degrees C, RPM, Watts, Amps, that the
    trimmed text contains, with the value of the leading token.  It gives
    the unclassifiable signal exactly when the leading token is no number
    or no keyword is present.  Trimming the text first, or padding it with
    blanks, changes nothing. *)
Theorem X7_value_classifier_by_first_keyword (valueStr : bytes) :
  let text := Strings.TrimSpace valueStr in
  parseValue valueStr
  = match leadingFloat text, recognizedUnit text with
    | Some v, Some (_, unit, quantity) => (v, unit, quantity)
    | _, _ => (float64_zero, [], [])
    end
  /\ ((parseValue valueStr).1.2 = []
      <-> leadingFloat text = None \/ recognizedUnit text = None)
  /\ parseValue text = parseValue valueStr
  /\ (forall pad pad', blank pad = true -> blank pad' = true ->
        parseValue (pad ++ valueStr ++ pad') = parseValue valueStr).
Proof.
  intros text. split; [apply parseValue_spec|]. split; [|split].
  - rewrite parseValue_spec. fold text.
    destruct (leadingFloat text) as [v|]; [|by split; [left|]].
    destruct (recognizedUnit text) as [[[kw unit] quantity]|] eqn:Hunit;
      [|by split; [right|]].
    cbn [fst snd]. apply recognizedUnit_known in Hunit as [Hin _].
    unfold unitKeywords in Hin. rewrite !elem_of_cons, elem_of_nil in Hin.
    split.
    + intros ->.
      destruct Hin as [[=]|[[=]|[[=]|[[=]|[[=]|[]]]]]].
    + by intros [?|?].
  - apply parseValue_TrimSpace.
  - intros pad pad' Hp Hp'. unfold parseValue.
    by rewrite (TrimSpace_padded pad valueStr pad' Hp Hp').
Qed.

(** ** Further properties of the registry *)

Lemma valuesAt_snoc (q : quantity) (host : bytes) (k : labels)
    (sensors : list SensorData) (s : SensorData) :
  valuesAt q host k (sensors ++ [s])
  = valuesAt q host k sensors
    ++ (if decide (sensorQuantity s = Some q /\ labelsOf host s = k)
        then [Value s] else []).
Proof.
  unfold valuesAt. rewrite filter_app, fmap_app. f_equal.
  rewrite filter_cons, filter_nil. by case_decide.
Qed.

Lemma fold_written_valuesAt (q : quantity) (host : bytes) (k : labels)
    (sensors : list SensorData) (old : option float64) :
  fold_left (written q host k) sensors old
  = match last (valuesAt q host k sensors) with
    | Some v => Some v
    | None => old
    end.
Proof.
  induction sensors as [|s sensors IH] using rev_ind; [done|].
  rewrite fold_left_app, valuesAt_snoc. cbn [fold_left].
  unfold written at 1. unfold labelsOf.
  case_decide as Hs.
  - by rewrite last_snoc.
  - by rewrite app_nil_r.
Qed.

Lemma lookup_updateMetrics (q : quantity) (host : bytes) (k : labels)
    (sensors : list SensorData) (reg : registry) :
  gauge q (updateMetrics sensors host reg) !! k
  = match last (valuesAt q host k sensors) with
    | Some v => Some v
    | None => gauge q reg !! k
    end.
Proof.
  by rewrite gauge_updateMetrics, lookup_fold_writes, fold_written_valuesAt.
Qed.

(** X8. After [updateMetrics] a point holds the value of the last reading
    of the list that names it; a point that no reading names holds what it
    held before. *)
Theorem X8_last_reading_wins (q : quantity) (host : bytes) (k : labels)
    (sensors : list SensorData) (reg : registry) :
  gauge q (updateMetrics sensors host reg) !! k
  = match last (valuesAt q host k sensors) with
    | Some v => Some v
    | None => gauge q reg !! k
    end.
Proof. apply lookup_updateMetrics. Qed.

Lemma size_writes (q : quantity) (host : bytes) (g : GaugeVec)
    (s : SensorData) :
  (size g <= size (writes q host g s) <= S (size g))%nat.
Proof.
  unfold writes, setGauge. case_decide; [|lia].
  rewrite map_size_insert. destruct (g !! _); unfold id; lia.
Qed.

Lemma size_fold_writes (q : quantity) (host : bytes)
    (sensors : list SensorData) (g : GaugeVec) :
  (size g <= size (fold_left (writes q host) sensors g)
   <= size g + length sensors)%nat.
Proof.
  revert g. induction sensors as [|s sensors IH]; intros g; simpl; [lia|].
  specialize (IH (writes q host g s)).
  pose proof (size_writes q host g s). lia.
Qed.

(** X9. [updateMetrics] removes no point, leaves alone the points under
    another host and the points that no reading names, and makes a
    collection grow by at most the number of readings. *)
Theorem X9_update_keeps_and_bounds (sensors : list SensorData) (host : bytes)
    (reg : registry) (q : quantity) :
  let reg' := updateMetrics sensors host reg in
  (forall k, is_Some (gauge q reg !! k) -> is_Some (gauge q reg' !! k))
  /\ (forall k, k.2 <> host -> gauge q reg' !! k = gauge q reg !! k)
  /\ (forall k, valuesAt q host k sensors = [] ->
                gauge q reg' !! k = gauge q reg !! k)
  /\ (size (gauge q reg) <= size (gauge q reg')
      <= size (gauge q reg) + length sensors)%nat.
Proof.
  intros reg'. subst reg'. split; [|split; [|split]].
  - intros k Hk. rewrite lookup_updateMetrics.
    by destruct (last _).
  - intros k Hk. rewrite lookup_updateMetrics.
    assert (valuesAt q host k sensors = []) as ->; [|done].
    unfold valuesAt.
    induction sensors as [|s sensors IH]; [done|].
    rewrite filter_cons. rewrite decide_False; [done|].
    intros [_ <-]. by apply Hk.
  - intros k Hk. by rewrite lookup_updateMetrics, Hk.
  - rewrite gauge_updateMetrics. apply size_fold_writes.
Qed.

Lemma parseSensorData_wellClassified (sdrData : bytes) :
  Forall wellClassified (parseSensorData sdrData).
Proof.
  unfold parseSensorData. generalize (Strings.Split sdrData newline).
  assert (Forall wellClassified []) as Hnil by constructor.
  revert Hnil. generalize (@nil SensorData).
  intros sensors Hs lines. revert sensors Hs.
  induction lines as [|l lines IH]; intros sensors Hs; simpl; [done|].
  by apply IH, loopBody_wellClassified.
Qed.

(** The [switch] of [updateMetrics] has a case for every type that the
    classifier gives. *)
Lemma wellClassified_quantity (x : SensorData) :
  wellClassified x -> is_Some (sensorQuantity x).
Proof.
  intros (Hin & _). unfold sensorQuantity.
  rewrite !elem_of_cons, elem_of_nil in Hin.
  destruct Hin as [[= _ ->]|[[= _ ->]|[[= _ ->]|[[= _ ->]|[[= _ ->]|[]]]]]];
    by eexists.
Qed.

Lemma valuesAt_elem (q : quantity) (host : bytes) (sensors : list SensorData)
    (x : SensorData) :
  x ∈ sensors -> sensorQuantity x = Some q ->
  Value x ∈ valuesAt q host (labelsOf host x) sensors.
Proof.
  intros Hx Hq. unfold valuesAt. apply list_elem_of_fmap.
  exists x. split; [done|]. by apply list_elem_of_filter.
Qed.

(** X10. Every reading that [parseSensorData] returns takes a case of the
    [switch] of [updateMetrics]: after a collection, the point with its
    name, its id and the host holds a value, one that the report gives for
    that point. *)
Theorem X10_every_reading_sets_a_point (config : IPMIConfig) (output : bytes)
    (reg : registry) (x : SensorData) :
  x ∈ parseSensorData output ->
  exists q v,
    sensorQuantity x = Some q /\
    gauge q (collectMetrics config (Output output) reg)
      !! (Name x, ID x, Host config) = Some v /\
    v ∈ valuesAt q (Host config) (Name x, ID x, Host config)
          (parseSensorData output).
Proof.
  intros Hx.
  pose proof (parseSensorData_wellClassified output) as Hall.
  rewrite Forall_forall in Hall.
  destruct (wellClassified_quantity x (Hall x Hx)) as [q Hq].
  pose proof (valuesAt_elem q (Host config) _ x Hx Hq) as Hin.
  unfold labelsOf in Hin.
  pose proof (lookup_updateMetrics q (Host config)
                (Name x, ID x, Host config) (parseSensorData output) reg)
    as Hlook.
  destruct (last _) as [v|] eqn:Hlast.
  - exists q, v. split; [done|]. split; [exact Hlook|].
    by apply last_Some_elem_of in Hlast.
  - apply last_None in Hlast. rewrite Hlast in Hin.
    by apply elem_of_nil in Hin.
Qed.

Lemma X10_every_reading_sets_a_point_witness :
  let config := {| Host := str "10.0.0.7"; Username := str "admin";
                   Password := str "secret"; Port := 623 |} in
  let output := str "Fan1 | 04h | ok | 7.1 | 850 RPM" in
  let x := {| Name := str "Fan1"; ID := str "04h"; Status := str "ok";
              Entity := str "7.1"; Value := float64_of_Z 850;
              Unit := str "rpm"; Type_ := str "fan" |} in
  x ∈ parseSensorData output /\
  exists q v,
    sensorQuantity x = Some q /\
    gauge q (collectMetrics config (Output output) emptyRegistry)
      !! (str "Fan1", str "04h", str "10.0.0.7") = Some v.
Proof.
  intros config output x.
  assert (x ∈ parseSensorData output) as Hx.
  { assert (parseSensorData output = [x]) as -> by (vm_compute; reflexivity).
    left. }
  split; [exact Hx|].
  destruct (X10_every_reading_sets_a_point config output emptyRegistry x Hx)
    as (q & v & Hq & Hv & _).
  exists q, v. split; [exact Hq|exact Hv].
Defined.

(** *** The order of the readings *)

Lemma valuesAt_Permutation (q : quantity) (host : bytes) (k : labels)
    (l1 l2 : list SensorData) :
  l1 ≡ₚ l2 -> valuesAt q host k l1 ≡ₚ valuesAt q host k l2.
Proof. intros H. unfold valuesAt. by rewrite H. Qed.

Lemma valuesAt_NoDup (q : quantity) (host : bytes) (k : labels)
    (sensors : list SensorData) :
  NoDup (omap (pointOf host) sensors) ->
  (length (valuesAt q host k sensors) <= 1)%nat.
Proof.
  unfold valuesAt. rewrite length_fmap.
  induction sensors as [|s sensors IH]; [simpl; lia|].
  csimpl. rewrite filter_cons. unfold pointOf at 1.
  case_decide as Hs.
  - destruct Hs as [Hq Hk]. rewrite Hq. intros [Hnot Hnd]%NoDup_cons.
    assert (filter (fun s0 => sensorQuantity s0 = Some q /\ labelsOf host s0 = k)
              sensors = []) as ->; [|simpl; lia].
    clear IH Hnd. induction sensors as [|t sensors IH]; [done|].
    rewrite filter_cons. case_decide as Ht.
    + exfalso. apply Hnot. csimpl. unfold pointOf at 1.
      destruct Ht as [-> ->]. rewrite Hk. left.
    + apply IH. intros Hin. apply Hnot. csimpl.
      destruct (pointOf host t); [by right|done].
  - intros Hnd. apply IH.
    destruct (sensorQuantity s); [by apply NoDup_cons in Hnd as [_ ?]|done].
Qed.

(** X11. When no two readings of a list name the same point, the order of
    the readings does not matter to [updateMetrics]. *)
Theorem X11_order_is_irrelevant_for_distinct_points
    (sensors1 sensors2 : list SensorData) (host : bytes) (reg : registry) :
  sensors1 ≡ₚ sensors2 ->
  NoDup (omap (pointOf host) sensors1) ->
  updateMetrics sensors1 host reg = updateMetrics sensors2 host reg.
Proof.
  intros Hperm Hnd. apply registry_eq. intros q. apply map_eq. intros k.
  rewrite !lookup_updateMetrics.
  pose proof (valuesAt_Permutation q host k _ _ Hperm) as Hp.
  pose proof (valuesAt_NoDup q host k _ Hnd) as Hlen.
  destruct (valuesAt q host k sensors1) as [|v [|v' l]].
  - apply Permutation_nil_l in Hp. by rewrite <- Hp.
  - apply Permutation_singleton_l in Hp. by rewrite <- Hp.
  - simpl in Hlen. lia.
Qed.

Lemma X11_order_is_irrelevant_for_distinct_points_witness :
  let r1 := {| Name := str "12V Rail"; ID := str "30h"; Status := str "ok";
               Entity := str "7.1"; Value := float64_of_Z 12;
               Unit := str "volts"; Type_ := str "voltage" |} in
  let r2 := {| Name := str "CPU1 Temp"; ID := str "01h"; Status := str "ok";
               Entity := str "3.1"; Value := float64_of_Z 45;
               Unit := str "celsius"; Type_ := str "temperature" |} in
  [r1; r2] ≡ₚ [r2; r1] /\
  NoDup (omap (pointOf (str "bmc")) [r1; r2]) /\
  updateMetrics [r1; r2] (str "bmc") emptyRegistry
  = updateMetrics [r2; r1] (str "bmc") emptyRegistry.
Proof.
  intros r1 r2.
  assert ([r1; r2] ≡ₚ [r2; r1]) as Hperm by apply Permutation_swap.
  assert (NoDup (omap (pointOf (str "bmc")) [r1; r2])) as Hnd.
  { apply (bool_decide_unpack _). vm_compute. exact I. }
  split; [exact Hperm|]. split; [exact Hnd|].
  exact (X11_order_is_irrelevant_for_distinct_points
           [r1; r2] [r2; r1] (str "bmc") emptyRegistry Hperm Hnd).
Defined.

(** ** Further properties of the scheduler *)

(** X12. In every run the calls of [collectMetrics] number at most two
    more than the ticks fired: the caller calls at most once, the goroutine
    at most once more than the ticks it received, and it receives no more
    ticks than were fired. *)
Theorem X12_collections_bounded_by_ticks (config : IPMIConfig)
    (reg : registry) (acts : list action) (st : sched) :
  runActions config acts (initial reg) = Some st ->
  (collections (trace st) <= 2 + count isTimerFired (trace st))%nat
  /\ (count isTickReceived (trace st) <= count isTimerFired (trace st))%nat
  /\ (count (isCollected Caller) (trace st) <= 1)%nat
  /\ (count (isCollected Goroutine) (trace st)
      <= 1 + count isTickReceived (trace st))%nat.
Proof.
  intros Hrun.
  destruct (run_inv _ _ _ _ Hrun (initial_inv reg)) as (Hc & Hg & Ht & _).
  unfold collections. rewrite Hc, Hg.
  destruct (callerAt st), (goroutineAt st), (tickPending st); lia.
Qed.

Lemma X12_collections_bounded_by_ticks_witness :
  let config := {| Host := str "10.0.0.7"; Username := str "admin";
                   Password := str "secret"; Port := 623 |} in
  let acts := [StepCaller (Output []); StepCaller (Output []);
               StepGoroutine (Output []); TimerFires; TimerFires;
               StepCaller (Output []); StepGoroutine (Output []);
               StepGoroutine (Output [])] in
  exists st,
    runActions config acts (initial emptyRegistry) = Some st /\
    count isTimerFired (trace st) = 2%nat /\
    collections (trace st) = 3%nat /\
    (collections (trace st) <= 2 + count isTimerFired (trace st))%nat.
Proof.
  intros config acts. eexists.
  split; [reflexivity|]. split; [reflexivity|]. split; [reflexivity|].
  destruct (X12_collections_bounded_by_ticks config emptyRegistry acts _
              eq_refl) as [H _].
  exact H.
Defined.

Lemma step_failing (config : IPMIConfig) (a : action) (st st' : sched) :
  commandFails a = true -> step config a st = Some st' ->
  metrics st' = metrics st.
Proof.
  unfold step. intros Hf Hstep.
  destruct a as [[out|err]|[out|err]|]; try discriminate Hf;
    repeat match type of Hstep with
           | context [match ?x with _ => _ end] => destruct x
           end;
    by simplify_eq.
Qed.

(** X13. While every command fails the registry stays as it was, through
    any number of steps of the caller, the goroutine and the timer. *)
Theorem X13_failing_commands_change_nothing (config : IPMIConfig)
    (acts : list action) (st st' : sched) :
  forallb commandFails acts = true ->
  runActions config acts st = Some st' ->
  metrics st' = metrics st.
Proof.
  revert st. induction acts as [|a acts IH]; intros st; simpl.
  - by intros _ [= ->].
  - intros [Ha Hacts]%andb_prop.
    destruct (step config a st) as [st1|] eqn:Hstep; [|done].
    intros Hrun. rewrite (IH st1 Hacts Hrun).
    by apply (step_failing config a).
Qed.

Lemma X13_failing_commands_change_nothing_witness :
  let config := {| Host := str "10.0.0.7"; Username := str "admin";
                   Password := str "secret"; Port := 623 |} in
  let acts := [StepCaller (Failed (str "exit status 1"));
               StepCaller (Failed (str "exit status 1"));
               StepGoroutine (Failed (str "exit status 1"));
               StepCaller (Failed (str "exit status 1")); TimerFires;
               StepGoroutine (Failed (str "exit status 1"));
               StepGoroutine (Failed (str "exit status 1"))] in
  exists st,
    forallb commandFails acts = true /\
    runActions config acts (initial emptyRegistry) = Some st /\
    collections (trace st) = 3%nat /\
    metrics st = emptyRegistry.
Proof.
  intros config acts. eexists.
  split; [reflexivity|]. split; [reflexivity|]. split; [reflexivity|].
  exact (X13_failing_commands_change_nothing config acts
           (initial emptyRegistry) _ eq_refl eq_refl).
Defined.

(** ** Configuration and the command *)

Lemma Getenv_insert_ne (env : gmap bytes bytes) (k key v : bytes) :
  k <> key -> Getenv (<[k := v]> env) key = Getenv env key.
Proof. intros H. unfold Getenv. by rewrite lookup_insert_ne. Qed.

(** X14. [getIPMIConfig] ends the process exactly when one of
    IPMI_HOST, IPMI_USERNAME, IPMI_PASSWORD is unset or empty; otherwise it
    returns their values, none empty, with port 623.  No other variable
    matters. *)
Theorem X14_configuration_needs_three_variables (env : gmap bytes bytes) :
  (getIPMIConfig env = None
   <-> (env !! str "IPMI_HOST" = None \/ env !! str "IPMI_HOST" = Some [])
       \/ (env !! str "IPMI_USERNAME" = None
           \/ env !! str "IPMI_USERNAME" = Some [])
       \/ (env !! str "IPMI_PASSWORD" = None
           \/ env !! str "IPMI_PASSWORD" = Some []))
  /\ (forall config, getIPMIConfig env = Some config ->
        env !! str "IPMI_HOST" = Some (Host config) /\
        env !! str "IPMI_USERNAME" = Some (Username config) /\
        env !! str "IPMI_PASSWORD" = Some (Password config) /\
        Host config <> [] /\ Username config <> [] /\ Password config <> [] /\
        Port config = 623)
  /\ (forall k v,
        k <> str "IPMI_HOST" -> k <> str "IPMI_USERNAME" ->
        k <> str "IPMI_PASSWORD" ->
        getIPMIConfig (<[k := v]> env) = getIPMIConfig env).
Proof.
  split; [|split].
  - unfold getIPMIConfig, Getenv.
    destruct (env !! str "IPMI_HOST") as [[|h hs]|];
      destruct (env !! str "IPMI_USERNAME") as [[|u us]|];
      destruct (env !! str "IPMI_PASSWORD") as [[|p ps]|];
      cbn [default isEmpty orb]; split; intros H; try done;
      try (by left; (left + right)); try (by right; left; (left + right));
      try (by right; right; (left + right));
      destruct H as [[?|?]|[[?|?]|[?|?]]]; done.
  - intros config. unfold getIPMIConfig, Getenv.
    destruct (env !! str "IPMI_HOST") as [[|h hs]|];
      destruct (env !! str "IPMI_USERNAME") as [[|u us]|];
      destruct (env !! str "IPMI_PASSWORD") as [[|p ps]|];
      cbn [default isEmpty orb]; try done.
    by intros [= <-].
  - intros k v H1 H2 H3. unfold getIPMIConfig.
    by rewrite !Getenv_insert_ne.
Qed.

(** X15. A cycle whose command fails leaves the registry as it was,
    whatever the command wrote before failing; a cycle whose command
    succeeds updates the registry from the parsed output.  The command
    line does not depend on the port, and for a configuration that
    [getIPMIConfig] returns none of its arguments is empty. *)
Theorem X15_cycle_uses_output_only_on_success (config : IPMIConfig)
    (os : list bytes -> bytes * option bytes) (reg : registry) :
  (forall output err,
      os (ipmitoolCommand config) = (output, Some err) ->
      collectCycle config os reg = reg) /\
  (forall output,
      os (ipmitoolCommand config) = (output, None) ->
      collectCycle config os reg
      = updateMetrics (parseSensorData output) (Host config) reg) /\
  (forall port,
      ipmitoolCommand {| Host := Host config; Username := Username config;
                         Password := Password config; Port := port |}
      = ipmitoolCommand config) /\
  (forall env config',
      getIPMIConfig env = Some config' ->
      Forall (fun arg => arg <> []) (ipmitoolCommand config')).
Proof.
  split; [|split; [|split]].
  - intros output err H. unfold collectCycle, executeIPMICommand.
    by rewrite H.
  - intros output H. unfold collectCycle, executeIPMICommand.
    by rewrite H.
  - done.
  - intros env config' Hc. unfold getIPMIConfig in Hc.
    destruct (isEmpty (Getenv env (str "IPMI_HOST"))) eqn:Hh; [done|].
    destruct (isEmpty (Getenv env (str "IPMI_USERNAME"))) eqn:Hu; [done|].
    destruct (isEmpty (Getenv env (str "IPMI_PASSWORD"))) eqn:Hp; [done|].
    cbn [orb] in Hc. injection Hc as <-.
    apply isEmpty_false in Hh, Hu, Hp.
    unfold ipmitoolCommand. cbn [Host Username Password].
    repeat (constructor; [done|]). constructor.
Qed.

Lemma X14_configuration_needs_three_variables_witness :
  let env : gmap bytes bytes :=
    <[str "IPMI_HOST" := str "10.0.0.7"]>
      (<[str "IPMI_USERNAME" := str "admin"]>
         (<[str "IPMI_PASSWORD" := str "secret"]>
            (<[str "HOME" := str "/root"]> ∅))) in
  let config := {| Host := str "10.0.0.7"; Username := str "admin";
                   Password := str "secret"; Port := 623 |} in
  getIPMIConfig env = Some config /\
  env !! str "IPMI_HOST" = Some (str "10.0.0.7") /\
  Port config = 623.
Proof.
  intros env config.
  assert (getIPMIConfig env = Some config) as Hc by (vm_compute; reflexivity).
  split; [exact Hc|].
  destruct (X14_configuration_needs_three_variables env) as (_ & H & _).
  destruct (H config Hc) as (Hh & _ & _ & _ & _ & _ & Hp).
  split; [exact Hh|exact Hp].
Defined.

Lemma X15_cycle_uses_output_only_on_success_witness :
  let config := {| Host := str "10.0.0.7"; Username := str "admin";
                   Password := str "secret"; Port := 623 |} in
  let os := fun _ : list bytes =>
              (str "Fan1 | 04h | ok | 7.1 | 850 RPM",
               Some (str "exit status 1")) in
  parseSensorData (str "Fan1 | 04h | ok | 7.1 | 850 RPM") <> [] /\
  collectCycle config os emptyRegistry = emptyRegistry.
Proof.
  intros config os.
  split; [vm_compute; discriminate|].
  destruct (X15_cycle_uses_output_only_on_success config os emptyRegistry)
    as (H & _).
  exact (H _ _ eq_refl).
Defined.

(** *** Cycles in succession *)

(** X16. Two cycles in succession amount to one cycle on the two outputs
    joined by a line break: a point holds the last value the second output
    gives for it, else the last value the first output gives, else what it
    held before. *)
Theorem X16_two_cycles_are_one (config : IPMIConfig) (out1 out2 : bytes)
    (reg : registry) :
  collectMetrics config (Output out2) (collectMetrics config (Output out1) reg)
  = collectMetrics config (Output (out1 ++ newline :: out2)) reg
  /\ forall q k,
       gauge q (collectMetrics config (Output out2)
                  (collectMetrics config (Output out1) reg)) !! k
       = match last (valuesAt q (Host config) k (parseSensorData out2)) with
         | Some v => Some v
         | None =>
           match last (valuesAt q (Host config) k (parseSensorData out1)) with
           | Some v => Some v
           | None => gauge q reg !! k
           end
         end.
Proof.
  split.
  - unfold collectMetrics, updateMetrics.
    by rewrite parseSensorData_app, fold_left_app.
  - intros q k. unfold collectMetrics. by rewrite !lookup_updateMetrics.
Qed.

Lemma X2_report_is_its_line_readings_witness :
  let line := str "Fan1 | 04h | ok | 7.1 | 850 RPM" in
  oneLine line = true /\
  lineReading line
  = Some {| Name := str "Fan1"; ID := str "04h"; Status := str "ok";
            Entity := str "7.1"; Value := float64_of_Z 850;
            Unit := str "rpm"; Type_ := str "fan" |} /\
  loopBody [] line = option_list (lineReading line).
Proof.
  intros line. split; [reflexivity|]. split; [vm_compute; reflexivity|].
  destruct (X2_report_is_its_line_readings []) as [_ H].
  exact (H [] line eq_refl).
Defined.

Lemma X5_line_endings_and_blanks_witness :
  let line := str "Fan1 | 04h | ok | 7.1 | 850 RPM" in
  blank (str "  ") = true /\ blank [carriageReturn] = true /\
  loopBody [] (str "  " ++ line ++ [carriageReturn]) = loopBody [] line /\
  parseSensorData (str "  ") = [].
Proof.
  intros line. split; [reflexivity|]. split; [reflexivity|].
  destruct (X5_line_endings_and_blanks [] []) as (_ & _ & Hpad & Hblank).
  split; [exact (Hpad (str "  ") line [carriageReturn] [] eq_refl eq_refl)|].
  exact (Hblank (str "  ") eq_refl).
Defined.

Lemma X7_value_classifier_by_first_keyword_witness :
  blank (str " ") = true /\
  parseValue (str " " ++ str "5 Amps at 12 Volts" ++ str " ")
  = parseValue (str "5 Amps at 12 Volts") /\
  parseValue (str "5 Amps at 12 Volts")
  = (float64_of_Z 5, str "volts", str "voltage").
Proof.
  split; [reflexivity|].
  destruct (X7_value_classifier_by_first_keyword (str "5 Amps at 12 Volts"))
    as (Hspec & _ & _ & Hpad).
  split; [exact (Hpad (str " ") (str " ") eq_refl eq_refl)|].
  rewrite Hspec. vm_compute. reflexivity.
Defined.

Lemma X9_update_keeps_and_bounds_witness :
  let r := {| Name := str "Fan1"; ID := str "04h"; Status := str "ok";
              Entity := str "7.1"; Value := float64_of_Z 850;
              Unit := str "rpm"; Type_ := str "fan" |} in
  let reg := updateMetrics [r] (str "old-host") emptyRegistry in
  let k := (str "Fan1", str "04h", str "old-host") in
  fanGauge reg !! k = Some (float64_of_Z 850) /\
  k.2 <> str "bmc" /\
  gauge Fan (updateMetrics [r] (str "bmc") reg) !! k
  = Some (float64_of_Z 850).
Proof.
  intros r reg k.
  assert (fanGauge reg !! k = Some (float64_of_Z 850)) as Hold
    by apply lookup_insert_eq.
  assert (k.2 <> str "bmc") as Hk by discriminate.
  split; [exact Hold|]. split; [exact Hk|].
  destruct (X9_update_keeps_and_bounds [r] (str "bmc") reg Fan)
    as (_ & Hhost & _).
  etransitivity; [exact (Hhost k Hk)|exact Hold].
Defined.
